(** * orpheus-PW: the logic of the gallery, magazine and paper-admin pages

    A shallow embedding of the three page components

      - client/src/pages/Photography.tsx   (module [Photography])
      - client/src/pages/Magazine.tsx      (module [Magazine])
      - client/src/pages/admin/AdminPapers.tsx (module [AdminPapers])

    React state becomes an explicit state record, an event handler becomes a
    function from the state to the next state and the list of effects it
    performs (toasts, remote mutations, cache invalidation), and the derived
    values of [useMemo] become functions of their dependencies. *)

From Stdlib Require Import ZArith NArith List Bool String Ascii Lia.
From Stdlib Require Import DecimalString DecimalNat.
Import ListNotations.

Set Implicit Arguments.

(* ================================================================= *)
(** ** JavaScript values used by the pages *)

Module JS.

(** A JavaScript string is a sequence of UTF-16 code units. *)
Definition code_unit := N.
Definition jsstring := list code_unit.

(** An ASCII literal of the source, as code units. *)
Definition lit (s : string) : jsstring :=
  map N_of_ascii (list_ascii_of_string s).

Fixpoint str_eqb (a b : jsstring) : bool :=
  match a, b with
  | [], [] => true
  | x :: a', y :: b' => N.eqb x y && str_eqb a' b'
  | _, _ => false
  end.

(** A [Date] is a time value: the milliseconds since the epoch. *)
Definition Date := Z.

(** Truthiness of a string: the empty string is falsy. *)
Definition truthy_str (s : jsstring) : bool :=
  match s with [] => false | _ :: _ => true end.

(** [x || d] for a nullable string [x]: null, undefined and the empty string
    all give the default. *)
Definition or_str (x : option jsstring) (d : jsstring) : jsstring :=
  match x with
  | Some (c :: r) => c :: r
  | _ => d
  end.

(** [x || undefined] for a nullable string. *)
Definition or_undefined (x : option jsstring) : option jsstring :=
  match x with
  | Some (c :: r) => Some (c :: r)
  | _ => None
  end.

(** The characters matched by [\s] and stripped by [String.prototype.trim]:
    ECMAScript WhiteSpace and LineTerminator. *)
Definition is_space (c : code_unit) : bool :=
  ((9 <=? c) && (c <=? 13)          (* TAB LF VT FF CR *)
   || (c =? 32)                     (* SPACE *)
   || (c =? 160)                    (* NO-BREAK SPACE *)
   || (c =? 5760)                   (* U+1680 *)
   || ((8192 <=? c) && (c <=? 8202))  (* U+2000 .. U+200A *)
   || (c =? 8232) || (c =? 8233)    (* U+2028 U+2029 *)
   || (c =? 8239)                   (* U+202F *)
   || (c =? 8287)                   (* U+205F *)
   || (c =? 12288)                  (* U+3000 *)
   || (c =? 65279))%N.              (* U+FEFF *)

Fixpoint drop_space (s : jsstring) : jsstring :=
  match s with
  | [] => []
  | c :: r => if is_space c then drop_space r else c :: r
  end.

(** [s.trim()] *)
Definition trim (s : jsstring) : jsstring :=
  rev (drop_space (rev (drop_space s))).

(** [s.split(/\s+/)]: the segments between the maximal runs of white space.
    [in_sep] tells that the previous character belonged to a separator, [cur]
    is the segment under construction, reversed.  As in ECMAScript, a string
    that begins (ends) with white space has an empty first (last) segment and
    the empty string splits into one empty segment. *)
Fixpoint split_from (in_sep : bool) (cur : jsstring) (s : jsstring)
  : list jsstring :=
  match s with
  | [] => [rev cur]
  | c :: r =>
      if is_space c
      then if in_sep
           then split_from true [] r
           else rev cur :: split_from true [] r
      else split_from false (c :: cur) r
  end.

Definition split_ws (s : jsstring) : list jsstring := split_from false [] s.

(** Whether a string begins, and whether it ends, with white space. *)
Definition starts_with_space (s : jsstring) : bool :=
  match s with
  | [] => false
  | c :: _ => is_space c
  end.

Fixpoint ends_with_space (s : jsstring) : bool :=
  match s with
  | [] => false
  | c :: r => match r with [] => is_space c | _ :: _ => ends_with_space r end
  end.

(** The empty segment that [split_ws] puts before the tokens of a text that
    is empty or begins with white space, and after the tokens of a text that
    ends with white space. *)
Definition head_segment (s : jsstring) : list jsstring :=
  match s with
  | [] => [[]]
  | c :: _ => if is_space c then [[]] else []
  end.

Definition tail_segment (s : jsstring) : list jsstring :=
  if ends_with_space s then [[]] else [].

(** [Number.prototype.toString] on an integer. *)
Definition nat_toString (n : nat) : jsstring :=
  lit (NilEmpty.string_of_uint (Nat.to_uint n)).

Definition Z_toString (z : Z) : jsstring :=
  lit (NilEmpty.string_of_int (Z.to_int z)).

(** [a % b] on integers: the remainder has the sign of the dividend, and the
    result is NaN ([None]) when the divisor is zero. *)
Definition rem (a b : Z) : option Z :=
  if (b =? 0)%Z then None else Some (Z.rem a b).

(** [xs[i]] for a computed index: undefined ([None]) when the index is NaN,
    negative or past the end. *)
Definition at_index {A} (xs : list A) (i : option Z) : option A :=
  match i with
  | None => None
  | Some i => if (i <? 0)%Z then None else nth_error xs (Z.to_nat i)
  end.

(** [xs[i]] at an integer [i]. *)
Definition item {A} (xs : list A) (i : Z) : option A := at_index xs (Some i).

(** [xs.findIndex(p)]: the first position satisfying [p], or -1. *)
Fixpoint findIndex_from {A} (p : A -> bool) (xs : list A) (i : Z) : Z :=
  match xs with
  | [] => (-1)%Z
  | x :: r => if p x then i else findIndex_from p r (i + 1)%Z
  end.

Definition findIndex {A} (p : A -> bool) (xs : list A) : Z :=
  findIndex_from p xs 0.

End JS.

(* ================================================================= *)
(** ** client/src/pages/Photography.tsx *)

Module Photography.
Import JS.

(** [interface Photo] *)
Record Photo := mkPhoto {
  id : Z;
  src : jsstring;
  title : jsstring;
  location : jsstring;
  year : jsstring;
  description : jsstring;
  camera : option jsstring;
  lens : option jsstring;
  settings : option jsstring
}.

(** [staticPhotos]: the fallback collection. *)
Definition staticPhotos : list Photo :=
  [ mkPhoto 1 (lit "/images/DSCF3114.JPG") (lit "Winter Solitude")
      (lit "Isle of Skye, Scotland") (lit "2024")
      (lit "Snow-covered peaks under a pale winter sky, where silence speaks louder than words.")
      None None None;
    mkPhoto 2 (lit "/images/image7.jpg") (lit "Edge of the World")
      (lit "Seven Sisters, England") (lit "2024")
      (lit "Where chalk cliffs meet the sea, two figures walk toward the infinite horizon.")
      None None None;
    mkPhoto 3 (lit "/images/image1.jpg") (lit "Turquoise Waters")
      (201%N (* E acute *) :: lit "tretat, France") (lit "2024")
      (lit "A lone kayaker navigates the crystal waters beneath ancient limestone cliffs.")
      None None None;
    mkPhoto 4 (lit "/images/image5.jpg") (lit "Threshold")
      (lit "York, England") (lit "2024")
      (lit "An elderly man pauses at the doorway, caught between shadow and light.")
      None None None;
    mkPhoto 5 (lit "/images/image2.jpg") (lit "Florentine Light")
      (lit "Florence, Italy") (lit "2024")
      (lit "The Duomo's intricate facade glows in the golden hour, as crowds gather below.")
      None None None;
    mkPhoto 6 (lit "/images/image3.jpg") (lit "Roman Passage")
      (lit "Rome, Italy") (lit "2024")
      (lit "The Pantheon stands eternal, as modern life flows past its ancient columns.")
      None None None ].

Section Page.

(** The clock and calendar of the runtime: the value of [new Date()] at the
    time of the computation, and [new Date(d).getFullYear()] in the local
    time zone. *)
Variable now : Date.
Variable getFullYear : Date -> Z.

(** Modelled from the spec: the row of the remote photo collection
    ([trpc.photos.list], declared outside these files), a displayable item of
    section 3 with the fields the page reads; a nullable column is an
    [option]. *)
Record DbPhoto := mkDbPhoto {
  db_id : Z;
  db_imageUrl : jsstring;
  db_title : jsstring;
  db_location : option jsstring;
  db_publishedAt : option Date;
  db_description : option jsstring;
  db_camera : option jsstring;
  db_lens : option jsstring;
  db_settings : option jsstring
}.

(** The mapper of [dbPhotos.map(p => ...)]. *)
Definition toPhoto (p : DbPhoto) : Photo :=
  {| id := db_id p;
     src := db_imageUrl p;
     title := db_title p;
     location := or_str (db_location p) [];
     year := match db_publishedAt p with
             | Some d => Z_toString (getFullYear d)
             | None => Z_toString (getFullYear now)
             end;
     description := or_str (db_description p) [];
     camera := or_undefined (db_camera p);
     lens := or_undefined (db_lens p);
     settings := or_undefined (db_settings p) |}.

(** [photos] of the [useMemo]: [dbPhotos] is [None] while the query has no
    data. *)
Definition photos (dbPhotos : option (list DbPhoto)) : list Photo :=
  match dbPhotos with
  | Some (p :: r) => map toPhoto (p :: r)
  | _ => staticPhotos
  end.

End Page.

Inductive Direction := prev | next.

Definition same_id (sel p : Photo) : bool := (id p =? id sel)%Z.

(** [navigatePhoto]: the value of the [selectedPhoto] state after the call. *)
Definition navigatePhoto (photos : list Photo) (selectedPhoto : option Photo)
    (direction : Direction) : option Photo :=
  match selectedPhoto with
  | None => None
  | Some sel =>
      let currentIndex := findIndex (same_id sel) photos in
      let len := Z.of_nat (List.length photos) in
      let newIndex :=
        match direction with
        | next => rem (currentIndex + 1) len
        | prev => rem (currentIndex - 1 + len) len
        end in
      at_index photos newIndex
  end.

(** A sample selection whose identifier is not among the built-in photos. *)
Definition ghost : Photo := mkPhoto 99 [] [] [] [] [] None None None.

(** [openLightbox] and [closeLightbox], on the selection. *)
Definition openLightbox (photo : Photo) : option Photo := Some photo.
Definition closeLightbox : option Photo := None.

End Photography.

(* ================================================================= *)
(** ** client/src/pages/Magazine.tsx *)

Module Magazine.
Import JS.

(** [interface Essay] *)
Record Essay := mkEssay {
  id : Z;
  title : jsstring;
  subtitle : jsstring;
  excerpt : jsstring;
  date : jsstring;
  readTime : jsstring;
  category : jsstring;
  coverImage : jsstring
}.

(** U+2014, the dash of two excerpts. *)
Definition em_dash : code_unit := 8212%N.

(** [staticEssays]: the fallback collection. *)
Definition staticEssays : list Essay :=
  [ mkEssay 1 (lit "The Art of Seeing") (lit "On Photography and Presence")
      (lit "In an age of infinite images, what does it mean to truly see? The camera becomes not just a tool for capture, but a lens through which we learn to inhabit the present moment more fully.")
      (lit "December 2024") (lit "12 min read") (lit "Photography")
      (lit "/images/image7.jpg");
    mkEssay 2 (lit "Wandering Through Time")
      (lit "Reflections on European Architecture")
      (lit "Standing before the Pantheon, one feels the weight of two millennia pressing down through those ancient columns. Architecture, at its finest, is frozen music"
         ++ em_dash :: lit "a symphony in stone that plays across centuries.")
      (lit "November 2024") (lit "15 min read") (lit "Travel")
      (lit "/images/image3.jpg");
    mkEssay 3 (lit "The Silence of Snow")
      (lit "A Winter Journey to the Scottish Highlands")
      (lit "There is a particular quality to highland silence in winter"
         ++ em_dash :: lit "not an absence of sound, but a presence of stillness so profound it becomes almost audible. The mountains hold their breath.")
      (lit "October 2024") (lit "10 min read") (lit "Travel")
      (lit "/images/DSCF3114.JPG");
    mkEssay 4 (lit "Portraits of Strangers")
      (lit "The Ethics and Aesthetics of Street Photography")
      (lit "Every photograph of a stranger is an act of both intimacy and intrusion. We capture moments that belong to others, freezing their private gestures into our public narratives.")
      (lit "September 2024") (lit "18 min read") (lit "Photography")
      (lit "/images/image5.jpg") ].

(** [Math.ceil(a / b)] for a count [a] and a positive constant [b].  The
    quotient of two such integers below 2^32 is either an integer, computed
    exactly, or at least 1/b away from one, so that the rounding of the
    division never changes the ceiling. *)
Definition ceil_div (a b : nat) : nat :=
  a / b + (if a mod b =? 0 then 0 else 1).

Definition wordsPerMinute : nat := 200.

(** The template [`${minutes} min read`]. *)
Definition min_read (minutes : nat) : jsstring :=
  nat_toString minutes ++ lit " min read".

(** [estimateReadTime] *)
Definition estimateReadTime (content : jsstring) : jsstring :=
  let wordCount := List.length (split_ws content) in
  let minutes := ceil_div wordCount wordsPerMinute in
  min_read minutes.

(** The reading of the specification: the whitespace-delimited tokens of a
    text are its maximal runs of characters that are not white space. *)
Fixpoint tokens_from (cur : jsstring) (s : jsstring) : list jsstring :=
  match s with
  | [] => match cur with [] => [] | _ :: _ => [rev cur] end
  | c :: r =>
      if is_space c
      then match cur with
           | [] => tokens_from [] r
           | _ :: _ => rev cur :: tokens_from [] r
           end
      else tokens_from (c :: cur) r
  end.

Definition spec_tokens (s : jsstring) : list jsstring := tokens_from [] s.

(** The estimate the specification describes: the ceiling of the number of
    tokens over 200. *)
Definition spec_readTime (content : jsstring) : jsstring :=
  min_read (ceil_div (List.length (spec_tokens content)) 200).

Section Page.

(** The clock and the locale of the runtime: [new Date()] and
    [new Date(d).toLocaleDateString('en-US', {month: 'long', year: 'numeric'})]. *)
Variable now : Date.
Variable monthYear : Date -> jsstring.

(** Modelled from the spec: the row of the remote essay collection
    ([trpc.essays.list], declared outside these files), a displayable item of
    section 3 with the fields the page reads; a nullable column is an
    [option]. *)
Record DbEssay := mkDbEssay {
  db_id : Z;
  db_title : jsstring;
  db_subtitle : option jsstring;
  db_excerpt : option jsstring;
  db_publishedAt : option Date;
  db_content : option jsstring;
  db_category : option jsstring;
  db_coverImageUrl : option jsstring
}.

(** The mapper of [dbEssays.map(e => ...)]. *)
Definition toEssay (e : DbEssay) : Essay :=
  {| id := db_id e;
     title := db_title e;
     subtitle := or_str (db_subtitle e) [];
     excerpt := or_str (db_excerpt e) [];
     date := match db_publishedAt e with
             | Some d => monthYear d
             | None => monthYear now
             end;
     readTime := match db_content e with
                 | Some (c :: r) => estimateReadTime (c :: r)
                 | _ => lit "5 min read"
                 end;
     category := or_str (db_category e) (lit "Uncategorized");
     coverImage := or_str (db_coverImageUrl e) (lit "/images/image7.jpg") |}.

(** [essays] of the [useMemo]: [dbEssays] is [None] while the query has no
    data. *)
Definition essays (dbEssays : option (list DbEssay)) : list Essay :=
  match dbEssays with
  | Some (e :: r) => map toEssay (e :: r)
  | _ => staticEssays
  end.

End Page.

(** [new Set(xs)] followed by [Array.from]: a Set keeps its elements in the
    order of their first insertion. *)
Definition set_add (s : list jsstring) (x : jsstring) : list jsstring :=
  if existsb (str_eqb x) s then s else s ++ [x].

Definition new_Set (xs : list jsstring) : list jsstring :=
  fold_left set_add xs [].

(** [categories] of the [useMemo]. *)
Definition categories (essays : list Essay) : list jsstring :=
  let uniqueCategories := new_Set (map category essays) in
  lit "All" :: uniqueCategories.

(** [filteredEssays] *)
Definition filteredEssays (essays : list Essay) (selectedCategory : jsstring)
  : list Essay :=
  if str_eqb selectedCategory (lit "All")
  then essays
  else filter (fun essay => str_eqb (category essay) selectedCategory) essays.

(** The reading of the specification: [out] consists of exactly the essays of
    [all] whose category is [selected], in the order of [all]. *)
Inductive kept_in_order (selected : jsstring)
  : list Essay -> list Essay -> Prop :=
| kept_nil : kept_in_order selected [] []
| kept_take e all out :
    category e = selected ->
    kept_in_order selected all out ->
    kept_in_order selected (e :: all) (e :: out)
| kept_drop e all out :
    category e <> selected ->
    kept_in_order selected all out ->
    kept_in_order selected (e :: all) out.

(** Sample bodies: [n] words separated by single spaces, and the same body
    followed by a line feed. *)
Definition body_of_words (n : nat) : jsstring :=
  match n with
  | O => []
  | S m => List.concat (repeat (lit "word ") m) ++ lit "word"
  end.

Definition body_with_newline (n : nat) : jsstring :=
  body_of_words n ++ [10%N].

End Magazine.

(* ================================================================= *)
(** ** client/src/pages/admin/AdminPapers.tsx *)

Module AdminPapers.
Import JS.

(** [type PaperFormData] *)
Record PaperFormData := mkForm {
  title : jsstring;
  authors : jsstring;
  abstract : jsstring;
  journal : jsstring;
  year : Z;
  volume : jsstring;
  issue : jsstring;
  pages : jsstring;
  doi : jsstring;
  pdfUrl : jsstring;
  pdfKey : jsstring;
  category : jsstring;
  tags : jsstring;
  citations : Z;
  featured : bool;
  published : bool
}.

(** Notification texts of the page. *)
Definition msg_created : jsstring := [35770; 25991; 21019; 24314; 25104; 21151]%N.
Definition msg_create_failed : jsstring := [21019; 24314; 22833; 36133; 58; 32]%N.
Definition msg_updated : jsstring := [35770; 25991; 26356; 26032; 25104; 21151]%N.
Definition msg_update_failed : jsstring := [26356; 26032; 22833; 36133; 58; 32]%N.
Definition msg_deleted : jsstring := [35770; 25991; 21024; 38500; 25104; 21151]%N.
Definition msg_delete_failed : jsstring := [21024; 38500; 22833; 36133; 58; 32]%N.
Definition msg_need_title : jsstring := [35831; 36755; 20837; 26631; 39064]%N.
Definition msg_need_authors : jsstring := [35831; 36755; 20837; 20316; 32773]%N.

(** [if (x)] for a nullable number: [null], [undefined] and 0 are falsy; the
    result is the number when it is truthy. *)
Definition if_truthy (x : option Z) : option Z :=
  match x with
  | Some n => if (n =? 0)%Z then None else Some n
  | None => None
  end.

(** Truthiness of a nullable boolean. *)

Definition truthy_bool (x : option bool) : bool :=
  match x with
  | Some b => b
  | None => false
  end.

(** [x || d] for a nullable number. *)
Definition or_num (x : option Z) (d : Z) : Z :=
  match x with
  | Some n => if (n =? 0)%Z then d else n
  | None => d
  end.

Section Page.

(** The clock and calendar of the runtime.  [loadYear] is the value of
    [new Date().getFullYear()] when the module was loaded (it is part of
    [defaultFormData]); a handler that calls [new Date()] takes the current
    time as its argument [now]. *)
Variable getFullYear : Date -> Z.
Variable loadYear : Z.

(** [defaultFormData] *)
Definition defaultFormData : PaperFormData :=
  {| title := []; authors := []; abstract := []; journal := [];
     year := loadYear;
     volume := []; issue := []; pages := []; doi := []; pdfUrl := [];
     pdfKey := []; category := []; tags := [];
     citations := 0;
     featured := false;
     published := false |}.

(** Modelled from the spec: the paper record returned by
    [trpc.papers.listAll] (declared outside these files), with the fields of
    section 3; a nullable column is an [option]. *)
Record Paper := mkPaper {
  paper_id : Z;
  paper_title : jsstring;
  paper_authors : jsstring;
  paper_abstract : option jsstring;
  paper_journal : option jsstring;
  paper_year : option Z;
  paper_volume : option jsstring;
  paper_issue : option jsstring;
  paper_pages : option jsstring;
  paper_doi : option jsstring;
  paper_pdfUrl : option jsstring;
  paper_pdfKey : option jsstring;
  paper_category : option jsstring;
  paper_tags : option jsstring;
  paper_citations : option Z;
  paper_featured : option bool;
  paper_published : option bool;
  paper_publishedAt : option Date
}.

(** The input of [papers.create]: [{...formData, publishedAt}]. *)
Record CreateInput := mkCreate {
  c_form : PaperFormData;
  c_publishedAt : option Date
}.

(** The input of [papers.update]: the identifier and any subset of the
    fields; [None] is a property that is missing or [undefined]. *)
Record UpdateInput := mkUpdate {
  u_id : Z;
  u_title : option jsstring;
  u_authors : option jsstring;
  u_abstract : option jsstring;
  u_journal : option jsstring;
  u_year : option Z;
  u_volume : option jsstring;
  u_issue : option jsstring;
  u_pages : option jsstring;
  u_doi : option jsstring;
  u_pdfUrl : option jsstring;
  u_pdfKey : option jsstring;
  u_category : option jsstring;
  u_tags : option jsstring;
  u_citations : option Z;
  u_featured : option bool;
  u_published : option bool;
  u_publishedAt : option Date
}.

(** [{id, ...formData, publishedAt}] *)
Definition update_of_form (id : Z) (f : PaperFormData)
    (publishedAt : option Date) : UpdateInput :=
  {| u_id := id;
     u_title := Some (title f); u_authors := Some (authors f);
     u_abstract := Some (abstract f); u_journal := Some (journal f);
     u_year := Some (year f); u_volume := Some (volume f);
     u_issue := Some (issue f); u_pages := Some (pages f);
     u_doi := Some (doi f); u_pdfUrl := Some (pdfUrl f);
     u_pdfKey := Some (pdfKey f); u_category := Some (category f);
     u_tags := Some (tags f); u_citations := Some (citations f);
     u_featured := Some (featured f); u_published := Some (published f);
     u_publishedAt := publishedAt |}.

(** [{id, published, publishedAt}] *)
Definition update_published (id : Z) (p : bool) (publishedAt : option Date)
  : UpdateInput :=
  {| u_id := id;
     u_title := None; u_authors := None; u_abstract := None;
     u_journal := None; u_year := None; u_volume := None; u_issue := None;
     u_pages := None; u_doi := None; u_pdfUrl := None; u_pdfKey := None;
     u_category := None; u_tags := None; u_citations := None;
     u_featured := None;
     u_published := Some p;
     u_publishedAt := publishedAt |}.

(** What a handler does besides setting state. *)
Inductive Effect :=
| toast_error (msg : jsstring)
| toast_success (msg : jsstring)
| create_mutate (input : CreateInput)
| update_mutate (input : UpdateInput)
| delete_mutate (id : Z)
| invalidate_listAll.

(** The five [useState] cells of the component. *)
Record State := mkState {
  isDialogOpen : bool;
  isDeleteDialogOpen : bool;
  editingId : option Z;
  deletingId : option Z;
  formData : PaperFormData
}.

Definition initial : State :=
  {| isDialogOpen := false; isDeleteDialogOpen := false;
     editingId := None; deletingId := None;
     formData := defaultFormData |}.

Definition Handler := State -> State * list Effect.

Definition openCreateDialog : Handler := fun s =>
  ({| isDialogOpen := true;
      isDeleteDialogOpen := isDeleteDialogOpen s;
      editingId := None;
      deletingId := deletingId s;
      formData := defaultFormData |}, []).

Definition openEditDialog (paper : Paper) (now : Date) : Handler := fun s =>
  ({| isDialogOpen := true;
      isDeleteDialogOpen := isDeleteDialogOpen s;
      editingId := Some (paper_id paper);
      deletingId := deletingId s;
      formData :=
        {| title := paper_title paper;
           authors := paper_authors paper;
           abstract := or_str (paper_abstract paper) [];
           journal := or_str (paper_journal paper) [];
           year := or_num (paper_year paper) (getFullYear now);
           volume := or_str (paper_volume paper) [];
           issue := or_str (paper_issue paper) [];
           pages := or_str (paper_pages paper) [];
           doi := or_str (paper_doi paper) [];
           pdfUrl := or_str (paper_pdfUrl paper) [];
           pdfKey := or_str (paper_pdfKey paper) [];
           category := or_str (paper_category paper) [];
           tags := or_str (paper_tags paper) [];
           citations := or_num (paper_citations paper) 0;
           featured := truthy_bool (paper_featured paper);
           published := truthy_bool (paper_published paper) |} |}, []).

Definition closeDialog_state (s : State) : State :=
  {| isDialogOpen := false;
     isDeleteDialogOpen := isDeleteDialogOpen s;
     editingId := None;
     deletingId := deletingId s;
     formData := defaultFormData |}.

Definition closeDialog : Handler := fun s => (closeDialog_state s, []).

Definition handleSubmit (now : Date) : Handler := fun s =>
  if negb (truthy_str (trim (title (formData s))))
  then (s, [toast_error msg_need_title])
  else if negb (truthy_str (trim (authors (formData s))))
  then (s, [toast_error msg_need_authors])
  else
    let publishedAt := if published (formData s) then Some now else None in
    match if_truthy (editingId s) with
    | Some id =>
        (s, [update_mutate (update_of_form id (formData s) publishedAt)])
    | None => (s, [create_mutate (mkCreate (formData s) publishedAt)])
    end.

Definition handleDelete : Handler := fun s =>
  match if_truthy (deletingId s) with
  | Some id => (s, [delete_mutate id])
  | None => (s, [])
  end.

Definition togglePublish (paper : Paper) (now : Date) : Handler := fun s =>
  let turn_on := negb (truthy_bool (paper_published paper)) in
  (s, [update_mutate
         (update_published (paper_id paper) turn_on
            (if turn_on then Some now else None))]).

(** The [onClick] of the trash button of a row: the delete intent. *)
Definition deleteIntent (paper : Paper) : Handler := fun s =>
  ({| isDialogOpen := isDialogOpen s;
      isDeleteDialogOpen := true;
      editingId := editingId s;
      deletingId := Some (paper_id paper);
      formData := formData s |}, []).

(** [setIsDialogOpen], [setIsDeleteDialogOpen] (the [onOpenChange] of the two
    dialogs and the cancel button of the confirmation) and
    [setFormData(prev => ...)] (the [onChange] of a form control). *)
Definition setIsDialogOpen (b : bool) : Handler := fun s =>
  ({| isDialogOpen := b;
      isDeleteDialogOpen := isDeleteDialogOpen s;
      editingId := editingId s;
      deletingId := deletingId s;
      formData := formData s |}, []).

Definition setIsDeleteDialogOpen (b : bool) : Handler := fun s =>
  ({| isDialogOpen := isDialogOpen s;
      isDeleteDialogOpen := b;
      editingId := editingId s;
      deletingId := deletingId s;
      formData := formData s |}, []).

Definition setFormData (f : PaperFormData -> PaperFormData) : Handler :=
  fun s =>
  ({| isDialogOpen := isDialogOpen s;
      isDeleteDialogOpen := isDeleteDialogOpen s;
      editingId := editingId s;
      deletingId := deletingId s;
      formData := f (formData s) |}, []).

(** The callbacks of the three mutations.  A failure carries the message of
    the error. *)
Definition createMutation_onSuccess : Handler := fun s =>
  (closeDialog_state s, [invalidate_listAll; toast_success msg_created]).

Definition createMutation_onError (message : jsstring) : Handler := fun s =>
  (s, [toast_error (msg_create_failed ++ message)]).

Definition updateMutation_onSuccess : Handler := fun s =>
  (closeDialog_state s, [invalidate_listAll; toast_success msg_updated]).

Definition updateMutation_onError (message : jsstring) : Handler := fun s =>
  (s, [toast_error (msg_update_failed ++ message)]).

Definition deleteMutation_onSuccess : Handler := fun s =>
  ({| isDialogOpen := isDialogOpen s;
      isDeleteDialogOpen := false;
      editingId := editingId s;
      deletingId := None;
      formData := formData s |},
   [invalidate_listAll; toast_success msg_deleted]).

Definition deleteMutation_onError (message : jsstring) : Handler := fun s =>
  (s, [toast_error (msg_delete_failed ++ message)]).

(** A sample record: a published paper. *)
Definition sample_paper : Paper :=
  {| paper_id := 7%Z;
     paper_title := lit "On Seeing"; paper_authors := lit "Zhang, X.";
     paper_abstract := None; paper_journal := None; paper_year := Some 2024%Z;
     paper_volume := None; paper_issue := None; paper_pages := None;
     paper_doi := None; paper_pdfUrl := None; paper_pdfKey := None;
     paper_category := None; paper_tags := None; paper_citations := Some 0%Z;
     paper_featured := Some false; paper_published := Some true;
     paper_publishedAt := Some 1700000000000%Z |}.

(** A remote create or update call. *)
Definition is_submission (e : Effect) : Prop :=
  (exists input, e = create_mutate input)
  \/ (exists input, e = update_mutate input).

(** The outcome of a remote call. *)
Inductive Outcome := succeeded | failed (message : jsstring).

Definition settle (onSuccess : Handler) (onError : jsstring -> Handler)
    (o : Outcome) : Handler :=
  match o with
  | succeeded => onSuccess
  | failed message => onError message
  end.

(** What can happen to the page: the clicks of the user and the completion
    of a pending remote call. *)
Inductive Event :=
| click_add
| click_edit (paper : Paper) (now : Date)
| click_toggle (paper : Paper) (now : Date)
| click_trash (paper : Paper)
| click_cancel
| click_save (now : Date)
| change_form (f : PaperFormData -> PaperFormData)
| dialog_open_change (b : bool)
| delete_dialog_open_change (b : bool)
| click_confirm_delete
| create_settled (o : Outcome)
| update_settled (o : Outcome)
| delete_settled (o : Outcome).

Definition handle (e : Event) : Handler :=
  match e with
  | click_add => openCreateDialog
  | click_edit paper now => openEditDialog paper now
  | click_toggle paper now => togglePublish paper now
  | click_trash paper => deleteIntent paper
  | click_cancel => closeDialog
  | click_save now => handleSubmit now
  | change_form f => setFormData f
  | dialog_open_change b => setIsDialogOpen b
  | delete_dialog_open_change b => setIsDeleteDialogOpen b
  | click_confirm_delete => handleDelete
  | create_settled o => settle createMutation_onSuccess createMutation_onError o
  | update_settled o => settle updateMutation_onSuccess updateMutation_onError o
  | delete_settled o => settle deleteMutation_onSuccess deleteMutation_onError o
  end.

(** A session: the events in order, from a state, with the effects performed
    so far. *)
Fixpoint run (s : State) (log : list Effect) (es : list Event)
  : State * list Effect :=
  match es with
  | [] => (s, log)
  | e :: r => let '(s', out) := handle e s in run s' (log ++ out) r
  end.

End Page.

End AdminPapers.

(* ================================================================= *)
(** ** The gallery page as a whole: selection, hover and scroll lock *)

Module Gallery.
Import JS Photography.

(** The two values the page writes to [document.body.style.overflow]. *)
Definition overflow_hidden : jsstring := lit "hidden".
Definition overflow_auto : jsstring := lit "auto".

(** The page: the memoized [photos], the two [useState] cells and the inline
    overflow style of the body. *)
Record Page := mkPage {
  photos_memo : list Photo;
  selectedPhoto : option Photo;
  hoveredId : option Z;
  body_overflow : jsstring
}.

Section Session.
Variable getFullYear : Date -> Z.

(** What happens to the page: the query delivers data at some time (the
    memo is recomputed), the pointer enters or leaves a cell of the grid, a
    cell is clicked, and the lightbox is closed (backdrop or close button) or
    asked for the previous or the next photo. *)
Inductive GalleryEvent :=
| query_data (dbPhotos : option (list DbPhoto)) (now : Date)
| mouse_enter (photo : Photo)
| mouse_leave
| click_photo (photo : Photo)
| click_close
| click_nav (direction : Direction).

Definition step (e : GalleryEvent) (pg : Page) : Page :=
  match e with
  | query_data dbPhotos now =>
      {| photos_memo := photos now getFullYear dbPhotos;
         selectedPhoto := selectedPhoto pg;
         hoveredId := hoveredId pg;
         body_overflow := body_overflow pg |}
  | mouse_enter photo =>
      {| photos_memo := photos_memo pg;
         selectedPhoto := selectedPhoto pg;
         hoveredId := Some (id photo);
         body_overflow := body_overflow pg |}
  | mouse_leave =>
      {| photos_memo := photos_memo pg;
         selectedPhoto := selectedPhoto pg;
         hoveredId := None;
         body_overflow := body_overflow pg |}
  | click_photo photo =>
      (* openLightbox *)
      {| photos_memo := photos_memo pg;
         selectedPhoto := Some photo;
         hoveredId := hoveredId pg;
         body_overflow := overflow_hidden |}
  | click_close =>
      (* closeLightbox *)
      {| photos_memo := photos_memo pg;
         selectedPhoto := None;
         hoveredId := hoveredId pg;
         body_overflow := overflow_auto |}
  | click_nav direction =>
      {| photos_memo := photos_memo pg;
         selectedPhoto :=
           navigatePhoto (photos_memo pg) (selectedPhoto pg) direction;
         hoveredId := hoveredId pg;
         body_overflow := body_overflow pg |}
  end.

(** The page after its first render: no data yet, nothing selected.  The body
    belongs to the document, not to the page, and the page has no cleanup
    when it is unmounted: the overflow that the page finds at its mount is
    whatever was left there, [inherited]. *)
Definition mounted (now : Date) (inherited : jsstring) : Page :=
  {| photos_memo := photos now getFullYear None;
     selectedPhoto := None;
     hoveredId := None;
     body_overflow := inherited |}.

Definition session (pg : Page) (es : list GalleryEvent) : Page :=
  fold_left (fun pg e => step e pg) es pg.

(** An event other than a click that opens or closes the lightbox. *)
Definition no_lightbox_click (e : GalleryEvent) : Prop :=
  match e with
  | click_photo _ | click_close => False
  | _ => True
  end.

End Session.

(** What every reachable page satisfies: the collection is not empty, the
    body is locked while a photo is selected, and without a selection the
    overflow is "auto" or still the one found at the mount. *)
Definition lock_follows_lightbox (inherited : jsstring) (pg : Page) : Prop :=
  photos_memo pg <> []
  /\ (selectedPhoto pg <> None -> body_overflow pg = overflow_hidden)
  /\ (selectedPhoto pg = None ->
      body_overflow pg = overflow_auto \/ body_overflow pg = inherited).

End Gallery.

(* ================================================================= *)
(** ** The magazine page as a whole: the essays and the selected tab *)

Module MagazinePage.
Import JS Magazine.

(** The page: the memoized [essays] and the [selectedCategory] state. *)
Record MagPage := mkMagPage {
  essays_memo : list Essay;
  selectedCategory : jsstring
}.

Section Session.
Variable monthYear : Date -> jsstring.

(** The query delivers data at some time, or a tab is clicked. *)
Inductive MagEvent :=
| essays_data (dbEssays : option (list DbEssay)) (now : Date)
| click_tab (category : jsstring).

Definition mag_step (e : MagEvent) (pg : MagPage) : MagPage :=
  match e with
  | essays_data dbEssays now =>
      {| essays_memo := essays now monthYear dbEssays;
         selectedCategory := selectedCategory pg |}
  | click_tab category =>
      (* setSelectedCategory(category) *)
      {| essays_memo := essays_memo pg;
         selectedCategory := category |}
  end.

(** The first render: no data yet, [useState("All")]. *)
Definition mag_mounted (now : Date) : MagPage :=
  {| essays_memo := essays now monthYear None;
     selectedCategory := lit "All" |}.

Definition mag_session (pg : MagPage) (es : list MagEvent) : MagPage :=
  fold_left (fun pg e => mag_step e pg) es pg.

End Session.

(** The tabs and the filtered list that a page renders. *)
Definition tabs (pg : MagPage) : list jsstring := categories (essays_memo pg).

Definition shown (pg : MagPage) : list Essay :=
  filteredEssays (essays_memo pg) (selectedCategory pg).

End MagazinePage.

(* ================================================================= *)
(** ** The store behind [papers.update] *)

Module PaperStore.
Import JS AdminPapers.





End PaperStore.

(* ================================================================= *)
(** ** The controls of the paper form *)

Module PaperForm.
Import JS AdminPapers.

(** A string without a character other than white space. *)
Definition blank (s : jsstring) : bool := forallb is_space s.

Section Controls.

(** [parseInt] of the runtime, [None] for NaN, and the calendar. *)
Variable parseInt : jsstring -> option Z.
Variable getFullYear : Date -> Z.

(** The controls of the dialog with the value they report: the text of an
    input ([e.target.value]) or the position of a switch.  The year input
    calls [new Date()] and so carries the time of the change. *)
Inductive Control :=
| title_input (value : jsstring)
| authors_input (value : jsstring)
| abstract_input (value : jsstring)
| journal_input (value : jsstring)
| year_input (value : jsstring) (now : Date)
| volume_input (value : jsstring)
| issue_input (value : jsstring)
| pages_input (value : jsstring)
| doi_input (value : jsstring)
| pdfUrl_input (value : jsstring)
| category_input (value : jsstring)
| tags_input (value : jsstring)
| featured_switch (checked : bool)
| published_switch (checked : bool)
| citations_input (value : jsstring).

(** [{...prev, field: v}] for each field that has a control. *)
Definition with_title (prev : PaperFormData) (v : jsstring) : PaperFormData :=
  {| title := v; authors := authors prev; abstract := abstract prev;
     journal := journal prev; year := year prev; volume := volume prev;
     issue := issue prev; pages := pages prev; doi := doi prev;
     pdfUrl := pdfUrl prev; pdfKey := pdfKey prev; category := category prev;
     tags := tags prev; citations := citations prev;
     featured := featured prev; published := published prev |}.

Definition with_authors (prev : PaperFormData) (v : jsstring) : PaperFormData :=
  {| title := title prev; authors := v; abstract := abstract prev;
     journal := journal prev; year := year prev; volume := volume prev;
     issue := issue prev; pages := pages prev; doi := doi prev;
     pdfUrl := pdfUrl prev; pdfKey := pdfKey prev; category := category prev;
     tags := tags prev; citations := citations prev;
     featured := featured prev; published := published prev |}.

Definition with_abstract (prev : PaperFormData) (v : jsstring) : PaperFormData :=
  {| title := title prev; authors := authors prev; abstract := v;
     journal := journal prev; year := year prev; volume := volume prev;
     issue := issue prev; pages := pages prev; doi := doi prev;
     pdfUrl := pdfUrl prev; pdfKey := pdfKey prev; category := category prev;
     tags := tags prev; citations := citations prev;
     featured := featured prev; published := published prev |}.

Definition with_journal (prev : PaperFormData) (v : jsstring) : PaperFormData :=
  {| title := title prev; authors := authors prev; abstract := abstract prev;
     journal := v; year := year prev; volume := volume prev;
     issue := issue prev; pages := pages prev; doi := doi prev;
     pdfUrl := pdfUrl prev; pdfKey := pdfKey prev; category := category prev;
     tags := tags prev; citations := citations prev;
     featured := featured prev; published := published prev |}.

Definition with_year (prev : PaperFormData) (v : Z) : PaperFormData :=
  {| title := title prev; authors := authors prev; abstract := abstract prev;
     journal := journal prev; year := v; volume := volume prev;
     issue := issue prev; pages := pages prev; doi := doi prev;
     pdfUrl := pdfUrl prev; pdfKey := pdfKey prev; category := category prev;
     tags := tags prev; citations := citations prev;
     featured := featured prev; published := published prev |}.

Definition with_volume (prev : PaperFormData) (v : jsstring) : PaperFormData :=
  {| title := title prev; authors := authors prev; abstract := abstract prev;
     journal := journal prev; year := year prev; volume := v;
     issue := issue prev; pages := pages prev; doi := doi prev;
     pdfUrl := pdfUrl prev; pdfKey := pdfKey prev; category := category prev;
     tags := tags prev; citations := citations prev;
     featured := featured prev; published := published prev |}.

Definition with_issue (prev : PaperFormData) (v : jsstring) : PaperFormData :=
  {| title := title prev; authors := authors prev; abstract := abstract prev;
     journal := journal prev; year := year prev; volume := volume prev;
     issue := v; pages := pages prev; doi := doi prev; pdfUrl := pdfUrl prev;
     pdfKey := pdfKey prev; category := category prev; tags := tags prev;
     citations := citations prev; featured := featured prev;
     published := published prev |}.

Definition with_pages (prev : PaperFormData) (v : jsstring) : PaperFormData :=
  {| title := title prev; authors := authors prev; abstract := abstract prev;
     journal := journal prev; year := year prev; volume := volume prev;
     issue := issue prev; pages := v; doi := doi prev; pdfUrl := pdfUrl prev;
     pdfKey := pdfKey prev; category := category prev; tags := tags prev;
     citations := citations prev; featured := featured prev;
     published := published prev |}.

Definition with_doi (prev : PaperFormData) (v : jsstring) : PaperFormData :=
  {| title := title prev; authors := authors prev; abstract := abstract prev;
     journal := journal prev; year := year prev; volume := volume prev;
     issue := issue prev; pages := pages prev; doi := v;
     pdfUrl := pdfUrl prev; pdfKey := pdfKey prev; category := category prev;
     tags := tags prev; citations := citations prev;
     featured := featured prev; published := published prev |}.

Definition with_pdfUrl (prev : PaperFormData) (v : jsstring) : PaperFormData :=
  {| title := title prev; authors := authors prev; abstract := abstract prev;
     journal := journal prev; year := year prev; volume := volume prev;
     issue := issue prev; pages := pages prev; doi := doi prev; pdfUrl := v;
     pdfKey := pdfKey prev; category := category prev; tags := tags prev;
     citations := citations prev; featured := featured prev;
     published := published prev |}.

Definition with_category (prev : PaperFormData) (v : jsstring) : PaperFormData :=
  {| title := title prev; authors := authors prev; abstract := abstract prev;
     journal := journal prev; year := year prev; volume := volume prev;
     issue := issue prev; pages := pages prev; doi := doi prev;
     pdfUrl := pdfUrl prev; pdfKey := pdfKey prev; category := v;
     tags := tags prev; citations := citations prev;
     featured := featured prev; published := published prev |}.

Definition with_tags (prev : PaperFormData) (v : jsstring) : PaperFormData :=
  {| title := title prev; authors := authors prev; abstract := abstract prev;
     journal := journal prev; year := year prev; volume := volume prev;
     issue := issue prev; pages := pages prev; doi := doi prev;
     pdfUrl := pdfUrl prev; pdfKey := pdfKey prev; category := category prev;
     tags := v; citations := citations prev; featured := featured prev;
     published := published prev |}.

Definition with_citations (prev : PaperFormData) (v : Z) : PaperFormData :=
  {| title := title prev; authors := authors prev; abstract := abstract prev;
     journal := journal prev; year := year prev; volume := volume prev;
     issue := issue prev; pages := pages prev; doi := doi prev;
     pdfUrl := pdfUrl prev; pdfKey := pdfKey prev; category := category prev;
     tags := tags prev; citations := v; featured := featured prev;
     published := published prev |}.

Definition with_featured (prev : PaperFormData) (v : bool) : PaperFormData :=
  {| title := title prev; authors := authors prev; abstract := abstract prev;
     journal := journal prev; year := year prev; volume := volume prev;
     issue := issue prev; pages := pages prev; doi := doi prev;
     pdfUrl := pdfUrl prev; pdfKey := pdfKey prev; category := category prev;
     tags := tags prev; citations := citations prev; featured := v;
     published := published prev |}.

Definition with_published (prev : PaperFormData) (v : bool) : PaperFormData :=
  {| title := title prev; authors := authors prev; abstract := abstract prev;
     journal := journal prev; year := year prev; volume := volume prev;
     issue := issue prev; pages := pages prev; doi := doi prev;
     pdfUrl := pdfUrl prev; pdfKey := pdfKey prev; category := category prev;
     tags := tags prev; citations := citations prev;
     featured := featured prev; published := v |}.

(** The updater that the [onChange] (or [onCheckedChange]) of a control
    passes to [setFormData]. *)
Definition onChange (c : Control) : PaperFormData -> PaperFormData :=
  fun prev =>
  match c with
  | title_input v => with_title prev v
  | authors_input v => with_authors prev v
  | abstract_input v => with_abstract prev v
  | journal_input v => with_journal prev v
  | year_input v now => with_year prev (or_num (parseInt v) (getFullYear now))
  | volume_input v => with_volume prev v
  | issue_input v => with_issue prev v
  | pages_input v => with_pages prev v
  | doi_input v => with_doi prev v
  | pdfUrl_input v => with_pdfUrl prev v
  | category_input v => with_category prev v
  | tags_input v => with_tags prev v
  | featured_switch b => with_featured prev b
  | published_switch b => with_published prev b
  | citations_input v => with_citations prev (or_num (parseInt v) 0)
  end.

(** The events of the page with the form changes that the dialog can make. *)
Inductive UserEvent :=
| control (c : Control)
| other (e : Event).

Definition page_event (u : UserEvent) : Event :=
  match u with
  | control c => change_form (onChange c)
  | other e => e
  end.

(** An event that is not a raw form update: every form update of a user
    session goes through a control. *)
Definition not_change_form (e : Event) : Prop :=
  match e with
  | change_form _ => False
  | _ => True
  end.

Definition Is_user_event (u : UserEvent) : Prop :=
  match u with
  | control _ => True
  | other e => not_change_form e
  end.

(** The state after a user session from the initial state. *)
Variable loadYear : Z.

Definition after (us : list UserEvent) : State :=
  fst (run getFullYear loadYear (initial loadYear) [] (map page_event us)).

(** What the state keeps about the storage key of the PDF: no paper is
    being edited and the key of the draft is empty, or the paper being edited
    was opened by the user and the key of the draft is the key of that
    paper. *)
Definition key_of_opened_paper (us : list UserEvent) (s : State) : Prop :=
  (editingId s = None /\ pdfKey (formData s) = [])
  \/ exists paper now,
       In (other (click_edit paper now)) us
       /\ editingId s = Some (paper_id paper)
       /\ pdfKey (formData s) = or_str (paper_pdfKey paper) [].

End Controls.




End PaperForm.

(* ================================================================= *)
(** * Theorems *)

Unset Implicit Arguments.

(* ================================================================= *)
(** ** Properties of strings: literals, decimal numerals, splitting *)

Module JSProps.
Import JS.

Lemma str_eqb_eq (a b : jsstring) : str_eqb a b = true <-> a = b.
Proof.
  revert b; induction a as [|x a IH]; intros [|y b]; simpl;
    try (split; [discriminate | discriminate]); [tauto|].
  rewrite andb_true_iff, N.eqb_eq, IH.
  split; [intros [-> ->]; reflexivity | intros H; injection H; auto].
Qed.

Lemma str_eqb_neq (a b : jsstring) : str_eqb a b = false <-> a <> b.
Proof.
  rewrite <- str_eqb_eq. destruct (str_eqb a b); split; congruence.
Qed.

Lemma lit_inj (s t : string) : lit s = lit t -> s = t.
Proof.
  unfold lit. intros H.
  rewrite <- (string_of_list_ascii_of_string s),
          <- (string_of_list_ascii_of_string t).
  f_equal.
  revert H. generalize (list_ascii_of_string s) (list_ascii_of_string t).
  induction l as [|a l IH]; intros [|b l']; simpl; try discriminate; auto.
  intros H; injection H as Hab Hl.
  f_equal; [|apply IH; exact Hl].
  rewrite <- (ascii_N_embedding a), <- (ascii_N_embedding b), Hab.
  reflexivity.
Qed.

(** Two numbers with the same numeral are equal. *)
Lemma nat_toString_inj (a b : nat) : nat_toString a = nat_toString b -> a = b.
Proof.
  unfold nat_toString. intros H. apply lit_inj in H.
  apply Unsigned.to_uint_inj.
  assert (Ha := NilEmpty.usu (Nat.to_uint a)).
  assert (Hb := NilEmpty.usu (Nat.to_uint b)).
  congruence.
Qed.

Lemma split_ws_nonempty (s : jsstring) : (1 <= List.length (split_ws s))%nat.
Proof.
  unfold split_ws. generalize false, (@nil code_unit).
  induction s as [|c r IH]; intros b cur; simpl; [lia|].
  destruct (is_space c); [destruct b|]; simpl; try apply IH.
  specialize (IH true []); lia.
Qed.

End JSProps.

(* ================================================================= *)
(** ** Properties of the lightbox navigation and of the photo list *)

Module PhotographyProps.
Import JS Photography.
Local Open Scope Z_scope.

Section FindIndex.
Context {A : Type} (p : A -> bool).

Lemma findIndex_from_absent (xs : list A) (i : Z) :
  (forall x, In x xs -> p x = false) -> findIndex_from p xs i = -1.
Proof.
  revert i; induction xs as [|x r IH]; intros i Hall; simpl; [reflexivity|].
  rewrite (Hall x (or_introl eq_refl)).
  apply IH; intros y Hy; apply Hall; right; exact Hy.
Qed.

Lemma findIndex_from_first (xs : list A) (i : Z) (j : nat) (x : A) :
  nth_error xs j = Some x -> p x = true ->
  (forall k y, (k < j)%nat -> nth_error xs k = Some y -> p y = false) ->
  findIndex_from p xs i = i + Z.of_nat j.
Proof.
  revert i j; induction xs as [|a r IH]; intros i j Hj Hp Hbefore.
  - destruct j; discriminate.
  - destruct j as [|j]; simpl in *.
    + injection Hj as ->. rewrite Hp. lia.
    + rewrite (Hbefore 0%nat a) by (simpl; auto; lia).
      rewrite (IH (i + 1) j Hj Hp).
      * lia.
      * intros k y Hk Hy. apply (Hbefore (S k) y); [lia | exact Hy].
Qed.

End FindIndex.

Lemma item_nth {A} (xs : list A) (i : Z) :
  0 <= i -> item xs i = nth_error xs (Z.to_nat i).
Proof.
  intros Hi; unfold item, at_index.
  destruct (i <? 0) eqn:E; [apply Z.ltb_lt in E; lia | reflexivity].
Qed.

Lemma item_in_range {A} (xs : list A) (i : Z) :
  0 <= i < Z.of_nat (List.length xs) -> exists x, item xs i = Some x.
Proof.
  intros Hi. rewrite item_nth by lia.
  destruct (nth_error xs (Z.to_nat i)) as [x|] eqn:E; [eauto|].
  apply nth_error_None in E; lia.
Qed.

(** With pairwise distinct identifiers, the search for the identifier of
    the item at position [j] stops at [j]. *)
Lemma findIndex_same_id (photos : list Photo) (j : nat) (cur sel : Photo) :
  NoDup (map id photos) ->
  nth_error photos j = Some cur -> id cur = id sel ->
  findIndex (same_id sel) photos = Z.of_nat j.
Proof.
  intros Hnd Hj Hid. unfold findIndex.
  rewrite (@findIndex_from_first _ (same_id sel) photos 0 j cur Hj); [lia | |].
  - unfold same_id. apply Z.eqb_eq; exact Hid.
  - intros k y Hk Hy. unfold same_id. apply Z.eqb_neq. intro Heq.
    assert (Hlen : (j < List.length (map id photos))%nat).
    { rewrite length_map. apply nth_error_Some. rewrite Hj; discriminate. }
    assert (k = j); [|lia].
    apply (proj1 (NoDup_nth_error (map id photos)) Hnd k j); [lia|].
    rewrite !nth_error_map, Hy, Hj; simpl. congruence.
Qed.

(** An identifier that occurs in the collection belongs to some item. *)
Lemma id_occurs (photos : list Photo) (i : Z) :
  In i (map id photos) ->
  exists j cur, nth_error photos j = Some cur /\ id cur = i.
Proof.
  intros Hin. apply in_map_iff in Hin as (cur & Hid & Hcur).
  apply In_nth_error in Hcur as (j & Hj). eauto.
Qed.

Section Navigation.
Variable photos : list Photo.
Hypothesis distinct_ids : NoDup (map id photos).

Variable N : Z.
Hypothesis size : N = Z.of_nat (List.length photos).

(** One step from a selection whose identifier is the one at position [j]. *)
Lemma navigate_from (j : nat) (cur sel : Photo) :
  nth_error photos j = Some cur -> id cur = id sel ->
  navigatePhoto photos (Some sel) next = item photos ((Z.of_nat j + 1) mod N)
  /\ navigatePhoto photos (Some sel) prev
     = item photos ((Z.of_nat j - 1 + N) mod N).
Proof.
  intros Hj Hid.
  assert (Hlt : (j < List.length photos)%nat)
    by (apply nth_error_Some; rewrite Hj; discriminate).
  unfold navigatePhoto. rewrite (@findIndex_same_id photos j cur sel distinct_ids Hj Hid).
  rewrite <- size. unfold rem.
  assert (HN : (N =? 0) = false) by (apply Z.eqb_neq; lia).
  rewrite HN. split.
  - rewrite Z.rem_mod_nonneg by lia. reflexivity.
  - rewrite Z.rem_mod_nonneg by lia. reflexivity.
Qed.

Lemma navigate_item (i : Z) :
  0 <= i < N ->
  navigatePhoto photos (item photos i) next = item photos ((i + 1) mod N)
  /\ navigatePhoto photos (item photos i) prev
     = item photos ((i - 1 + N) mod N).
Proof.
  intros Hi. destruct (@item_in_range _ photos i) as (x & Hx); [lia|].
  rewrite Hx. rewrite item_nth in Hx by lia.
  destruct (@navigate_from (Z.to_nat i) x x Hx eq_refl) as [Hn Hp].
  rewrite Z2Nat.id in Hn, Hp by lia. split; assumption.
Qed.

Lemma iter_next (k : nat) (i : Z) :
  0 <= i < N ->
  Nat.iter k (fun s => navigatePhoto photos s next) (item photos i)
  = item photos ((i + Z.of_nat k) mod N).
Proof.
  intros Hi. induction k as [|k IH].
  - cbn [Nat.iter Z.of_nat]. rewrite Z.add_0_r, Z.mod_small by lia. reflexivity.
  - simpl Nat.iter. rewrite IH.
    assert (Hr : 0 <= (i + Z.of_nat k) mod N < N)
      by (apply Z.mod_pos_bound; lia).
    rewrite (proj1 (@navigate_item _ Hr)).
    rewrite Zplus_mod_idemp_l.
    replace (i + Z.of_nat k + 1) with (i + Z.of_nat (S k)) by lia.
    reflexivity.
Qed.

Lemma iter_prev (k : nat) (i : Z) :
  0 <= i < N ->
  Nat.iter k (fun s => navigatePhoto photos s prev) (item photos i)
  = item photos ((i - Z.of_nat k) mod N).
Proof.
  intros Hi. induction k as [|k IH].
  - cbn [Nat.iter Z.of_nat]. rewrite Z.sub_0_r, Z.mod_small by lia. reflexivity.
  - simpl Nat.iter. rewrite IH.
    assert (Hr : 0 <= (i - Z.of_nat k) mod N < N)
      by (apply Z.mod_pos_bound; lia).
    rewrite (proj2 (@navigate_item _ Hr)).
    replace ((i - Z.of_nat k) mod N - 1 + N)
      with ((i - Z.of_nat k) mod N + (N - 1)) by lia.
    rewrite Zplus_mod_idemp_l.
    replace (i - Z.of_nat k + (N - 1)) with (i - Z.of_nat (S k) + 1 * N) by lia.
    rewrite Z_mod_plus_full. reflexivity.
Qed.

End Navigation.

(** The item found for the identifier of a member is that member. *)
Lemma member_found (photos : list Photo) (j : nat) (cur sel : Photo) :
  NoDup (map id photos) ->
  nth_error photos j = Some cur -> id cur = id sel ->
  In sel photos -> cur = sel.
Proof.
  intros Hnd Hj Hid Hin.
  apply In_nth_error in Hin as (k & Hk).
  assert (Hjlen : (j < List.length (map id photos))%nat).
  { rewrite length_map. apply nth_error_Some. rewrite Hj; discriminate. }
  assert (j = k).
  { apply (proj1 (NoDup_nth_error (map id photos)) Hnd j k Hjlen).
    rewrite !nth_error_map, Hj, Hk; simpl. congruence. }
  subst k. congruence.
Qed.

(** C1. In a non-empty collection of [N] photos with pairwise distinct
    identifiers (the invariant of a collection), let the identifier of the
    selected photo occur at index [i].  Then "next" selects the item at index
    [(i + 1) mod N] and "prev" the item at index [(i - 1 + N) mod N]; [N]
    times "next", [N] times "prev", "next" then "prev" and "prev" then "next"
    all end on the item at index [i], which carries the identifier of the
    original selection and is the original selection whenever that one is an
    item of the collection. *)
Theorem navigatePhoto_cycle (photos : list Photo) (sel : Photo) :
  photos <> [] ->
  NoDup (map id photos) ->
  In (id sel) (map id photos) ->
  let N := Z.of_nat (List.length photos) in
  let go d := fun s => navigatePhoto photos s d in
  exists (i : Z) (cur : Photo),
    findIndex (same_id sel) photos = i /\ 0 <= i < N
    /\ item photos i = Some cur /\ id cur = id sel
    /\ (In sel photos -> cur = sel)
    /\ go next (Some sel) = item photos ((i + 1) mod N)
    /\ go prev (Some sel) = item photos ((i - 1 + N) mod N)
    /\ (exists nx pv, go next (Some sel) = Some nx /\ go prev (Some sel) = Some pv)
    /\ Nat.iter (List.length photos) (go next) (Some sel) = Some cur
    /\ Nat.iter (List.length photos) (go prev) (Some sel) = Some cur
    /\ go prev (go next (Some sel)) = Some cur
    /\ go next (go prev (Some sel)) = Some cur.
Proof.
  intros Hne Hnd Hin N go.
  destruct (id_occurs photos (id sel) Hin) as (j & cur & Hj & Hid).
  assert (Hlt : (j < List.length photos)%nat)
    by (apply nth_error_Some; rewrite Hj; discriminate).
  assert (Hi : 0 <= Z.of_nat j < N) by (subst N; lia).
  assert (Hcur : item photos (Z.of_nat j) = Some cur)
    by (rewrite item_nth, Nat2Z.id by lia; exact Hj).
  destruct (@navigate_from photos Hnd N eq_refl j cur sel Hj Hid) as [Hn Hp].
  (* a step only looks at the identifier of the selection *)
  assert (Hsame : forall d, go d (Some sel) = go d (item photos (Z.of_nat j))).
  { intros d. rewrite Hcur.
    destruct (@navigate_from photos Hnd N eq_refl j cur cur Hj eq_refl)
      as [Hn' Hp'].
    destruct d; unfold go; congruence. }
  assert (Hnr : 0 <= (Z.of_nat j + 1) mod N < N)
    by (apply Z.mod_pos_bound; lia).
  assert (Hpr : 0 <= (Z.of_nat j - 1 + N) mod N < N)
    by (apply Z.mod_pos_bound; lia).
  exists (Z.of_nat j), cur.
  split; [exact (@findIndex_same_id photos j cur sel Hnd Hj Hid)|].
  split; [exact Hi|]. split; [exact Hcur|]. split; [exact Hid|].
  split; [exact (@member_found photos j cur sel Hnd Hj Hid)|].
  split; [exact Hn|]. split; [exact Hp|].
  split.
  { destruct (@item_in_range _ photos _ Hnr) as (nx & Hnx).
    destruct (@item_in_range _ photos _ Hpr) as (pv & Hpv).
    exists nx, pv. unfold go. rewrite Hn, Hp. split; assumption. }
  assert (Hlen : List.length photos = S (pred (List.length photos))) by lia.
  split.
  { rewrite Hlen, Nat.iter_succ_r, (Hsame next), <- Nat.iter_succ_r, <- Hlen.
    unfold go. rewrite (@iter_next photos Hnd N eq_refl _ _ Hi).
    replace (Z.of_nat j + Z.of_nat (List.length photos))
      with (Z.of_nat j + 1 * N) by (subst N; lia).
    rewrite Z_mod_plus_full, Z.mod_small by lia. exact Hcur. }
  split.
  { rewrite Hlen, Nat.iter_succ_r, (Hsame prev), <- Nat.iter_succ_r, <- Hlen.
    unfold go. rewrite (@iter_prev photos Hnd N eq_refl _ _ Hi).
    replace (Z.of_nat j - Z.of_nat (List.length photos))
      with (Z.of_nat j + (-1) * N) by (subst N; lia).
    rewrite Z_mod_plus_full, Z.mod_small by lia. exact Hcur. }
  split.
  { unfold go at 2. rewrite Hn. unfold go.
    rewrite (proj2 (@navigate_item photos Hnd N eq_refl _ Hnr)).
    replace ((Z.of_nat j + 1) mod N - 1 + N)
      with ((Z.of_nat j + 1) mod N + (N - 1)) by lia.
    rewrite Zplus_mod_idemp_l.
    replace (Z.of_nat j + 1 + (N - 1)) with (Z.of_nat j + 1 * N) by lia.
    rewrite Z_mod_plus_full, Z.mod_small by lia. exact Hcur. }
  { unfold go at 2. rewrite Hp. unfold go.
    rewrite (proj1 (@navigate_item photos Hnd N eq_refl _ Hpr)).
    rewrite Zplus_mod_idemp_l.
    replace (Z.of_nat j - 1 + N + 1) with (Z.of_nat j + 1 * N) by lia.
    rewrite Z_mod_plus_full, Z.mod_small by lia. exact Hcur. }
Qed.

(** The round trip of C1 on the built-in collection, from its third photo. *)
Lemma navigatePhoto_cycle_static :
  staticPhotos <> []
  /\ NoDup (map id staticPhotos)
  /\ exists third,
       item staticPhotos 2 = Some third
       /\ Nat.iter 6 (fun s => navigatePhoto staticPhotos s next) (Some third)
          = Some third.
Proof.
  assert (Hne : staticPhotos <> []) by discriminate.
  assert (Hnd : NoDup (map id staticPhotos)).
  { simpl. repeat constructor; simpl; intuition discriminate. }
  split; [exact Hne|]. split; [exact Hnd|].
  destruct (item staticPhotos 2) as [third|] eqn:E; [|discriminate].
  exists third. split; [reflexivity|].
  assert (Hmem : In third staticPhotos).
  { unfold item, at_index in E; simpl in E. injection E as <-.
    simpl; auto. }
  destruct (@navigatePhoto_cycle staticPhotos third Hne Hnd
              (in_map id _ _ Hmem))
    as (i & cur & _ & _ & _ & _ & Heq & _ & _ & _ & Hnext & _).
  rewrite (Heq Hmem) in Hnext. exact Hnext.
Defined.

(** Without distinct identifiers the cycle is lost: with two items that share
    an identifier, two steps "next" from the first one stay on the second. *)
Example navigatePhoto_duplicate_ids :
  let a := mkPhoto 1 (lit "a") [] [] [] [] None None None in
  let b := mkPhoto 1 (lit "b") [] [] [] [] None None None in
  Nat.iter 2 (fun s => navigatePhoto [a; b] s next) (Some a) = Some b.
Proof. reflexivity. Qed.

(** C7 (as amended). In a non-empty collection that does not contain the
    identifier of the selected photo, the computed index is -1 and "next"
    selects the item at index 0, the first one: (-1 + 1) % N = 0. *)
Theorem navigatePhoto_absent_next (photos : list Photo) (sel : Photo) :
  photos <> [] ->
  ~ In (id sel) (map id photos) ->
  findIndex (same_id sel) photos = -1
  /\ navigatePhoto photos (Some sel) next = item photos 0
  /\ navigatePhoto photos (Some sel) next = hd_error photos
  /\ exists first, navigatePhoto photos (Some sel) next = Some first.
Proof.
  intros Hne Hout.
  assert (Hidx : findIndex (same_id sel) photos = -1).
  { unfold findIndex. apply findIndex_from_absent.
    intros x Hx. unfold same_id. apply Z.eqb_neq. intro Heq.
    apply Hout. rewrite <- Heq. apply in_map; exact Hx. }
  assert (Hnav : navigatePhoto photos (Some sel) next = item photos 0).
  { unfold navigatePhoto. rewrite Hidx. unfold rem.
    destruct photos as [|p r]; [contradiction|].
    replace (Z.of_nat (List.length (p :: r)) =? 0) with false
      by (symmetry; apply Z.eqb_neq; simpl List.length; lia).
    reflexivity. }
  destruct photos as [|p r]; [contradiction|].
  split; [exact Hidx|]. split; [exact Hnav|].
  split; [rewrite Hnav; reflexivity|].
  exists p. rewrite Hnav; reflexivity.
Qed.

Lemma navigatePhoto_absent_next_static :
  let ghost := mkPhoto 99 [] [] [] [] [] None None None in
  navigatePhoto staticPhotos (Some ghost) next = item staticPhotos 0.
Proof.
  intros ghost.
  apply (@navigatePhoto_absent_next staticPhotos ghost).
  - discriminate.
  - simpl. intuition discriminate.
Defined.

(** C7 as stated fails: with the six built-in photos and a selection whose
    identifier 99 is not among them, "next" does not select the item at
    index N - 1 = 5 but the one at index 0. *)
Lemma navigatePhoto_absent_not_last :
  let ghost := mkPhoto 99 [] [] [] [] [] None None None in
  ~ In (id ghost) (map id staticPhotos)
  /\ findIndex (same_id ghost) staticPhotos = -1
  /\ navigatePhoto staticPhotos (Some ghost) next
     <> item staticPhotos (Z.of_nat (List.length staticPhotos) - 1)
  /\ navigatePhoto staticPhotos (Some ghost) next = item staticPhotos 0.
Proof.
  intros ghost. split; [simpl; intuition discriminate|].
  split; [reflexivity|]. split; [|reflexivity].
  vm_compute. discriminate.
Qed.

(** On an absent selection "prev" computes (-2 + N) % N: the item before the
    last one, and the only item when there is just one. *)
Lemma navigatePhoto_absent_prev (photos : list Photo) (sel : Photo) :
  photos <> [] ->
  ~ In (id sel) (map id photos) ->
  let N := Z.of_nat (List.length photos) in
  navigatePhoto photos (Some sel) prev
  = item photos (if N =? 1 then 0 else N - 2).
Proof.
  intros Hne Hout N.
  assert (Hidx : findIndex (same_id sel) photos = -1).
  { unfold findIndex. apply findIndex_from_absent.
    intros x Hx. unfold same_id. apply Z.eqb_neq. intro Heq.
    apply Hout. rewrite <- Heq. apply in_map; exact Hx. }
  unfold navigatePhoto. rewrite Hidx. fold N. unfold rem.
  assert (HN : 1 <= N) by (subst N; destruct photos; simpl List.length; [contradiction|lia]).
  replace (N =? 0) with false by (symmetry; apply Z.eqb_neq; lia).
  destruct (N =? 1) eqn:E1.
  - apply Z.eqb_eq in E1. rewrite E1. reflexivity.
  - apply Z.eqb_neq in E1. replace (-1 - 1 + N) with (N - 2) by lia.
    rewrite Z.rem_small by lia. reflexivity.
Qed.

End PhotographyProps.

(* ================================================================= *)
(** ** Properties of the read-time estimate and of the category filter *)

Module MagazineProps.
Import JS Magazine JSProps.

Lemma ends_with_space_cons (c : code_unit) (r : jsstring) :
  ends_with_space (c :: r)
  = match r with [] => is_space c | _ :: _ => ends_with_space r end.
Proof. reflexivity. Qed.

(** The two states of the splitter against the tokenizer: inside a segment
    that already has a character, and inside a separator. *)
Lemma split_from_tokens (s : jsstring) :
  (forall cur, cur <> [] ->
     split_from false cur s = tokens_from cur s ++ tail_segment s)
  /\ split_from true [] s
     = tokens_from [] s
       ++ match s with [] => [[]] | _ :: _ => tail_segment s end.
Proof.
  induction s as [|c r [IHword IHsep]].
  - split; [|reflexivity].
    intros [|x cur] Hcur; [contradiction|]. reflexivity.
  - assert (Htail : is_space c = true ->
              tail_segment (c :: r)
              = match r with [] => [[]] | _ :: _ => tail_segment r end).
    { intros Hc. unfold tail_segment. rewrite ends_with_space_cons.
      destruct r; [rewrite Hc|]; reflexivity. }
    assert (Htail' : is_space c = false ->
              tail_segment (c :: r) = tail_segment r).
    { intros Hc. unfold tail_segment. rewrite ends_with_space_cons.
      destruct r; [rewrite Hc|]; reflexivity. }
    split.
    + intros cur Hcur. simpl. destruct (is_space c) eqn:Hc.
      * rewrite IHsep, (Htail eq_refl).
        destruct cur; [contradiction|]. reflexivity.
      * rewrite IHword by discriminate. rewrite (Htail' eq_refl).
        reflexivity.
    + simpl. destruct (is_space c) eqn:Hc.
      * rewrite IHsep, (Htail eq_refl). reflexivity.
      * rewrite IHword by discriminate. rewrite (Htail' eq_refl).
        reflexivity.
Qed.

(** What [split(/\s+/)] returns, in terms of the tokens of the text. *)
Lemma split_ws_tokens (s : jsstring) :
  split_ws s = head_segment s ++ spec_tokens s ++ tail_segment s.
Proof.
  unfold split_ws, spec_tokens. destruct s as [|c r]; [reflexivity|].
  destruct (split_from_tokens r) as [Hword Hsep].
  simpl. destruct (is_space c) eqn:Hc.
  - rewrite Hsep. unfold tail_segment. rewrite ends_with_space_cons.
    destruct r; [rewrite Hc|]; reflexivity.
  - rewrite Hword by discriminate. unfold tail_segment.
    rewrite ends_with_space_cons.
    destruct r; [rewrite Hc|]; reflexivity.
Qed.

(** On a text that neither begins nor ends with white space the estimate is
    the one of the specification. *)
Lemma estimateReadTime_trimmed (content : jsstring) :
  content <> [] ->
  starts_with_space content = false ->
  ends_with_space content = false ->
  estimateReadTime content = spec_readTime content.
Proof.
  intros Hne Hs He. unfold estimateReadTime, spec_readTime, wordsPerMinute.
  rewrite split_ws_tokens. unfold tail_segment. rewrite He, app_nil_r.
  destruct content as [|c r]; [contradiction|].
  simpl in Hs. unfold head_segment. rewrite Hs. reflexivity.
Qed.

Lemma min_read_inj (a b : nat) : min_read a = min_read b -> a = b.
Proof.
  unfold min_read. intros H. apply app_inv_tail in H.
  apply nat_toString_inj; exact H.
Qed.

Lemma ceil_div_pos (a : nat) : (1 <= a -> 1 <= ceil_div a 200)%nat.
Proof.
  intros Ha. unfold ceil_div.
  destruct (a mod 200 =? 0)%nat eqn:E.
  - apply Nat.eqb_eq in E.
    assert (a = 200 * (a / 200))%nat
      by (rewrite (Nat.div_mod_eq a 200) at 1; lia).
    lia.
  - lia.
Qed.

(** C8 (as amended). The estimate is not applied to an empty body: for a
    remote essay whose content is missing or empty the page shows the fixed
    label "5 min read" instead, which is not a "0 min" label, and it applies
    the estimate to every content that is not empty.  The estimate returns a
    label on every input. *)
Theorem empty_body_is_not_estimated (now : Date)
    (monthYear : Date -> jsstring) (row : DbEssay) :
  (db_content row = None \/ db_content row = Some [] ->
   readTime (toEssay now monthYear row) = lit "5 min read"
   /\ readTime (toEssay now monthYear row) <> lit "0 min read"
   /\ firstn 5 (readTime (toEssay now monthYear row)) <> lit "0 min")
  /\ (forall c r,
        db_content row = Some (c :: r) ->
        readTime (toEssay now monthYear row) = estimateReadTime (c :: r))
  /\ (forall content, exists minutes,
        estimateReadTime content = min_read minutes).
Proof.
  split; [|split].
  - intros [H | H]; unfold toEssay; simpl; rewrite H;
      (split; [reflexivity|]); split; vm_compute; discriminate.
  - intros c r H. unfold toEssay; simpl. rewrite H. reflexivity.
  - intros content. eexists. reflexivity.
Qed.

Lemma empty_body_is_not_estimated_sample :
  readTime (toEssay 0%Z (fun _ => lit "May 2026")
              (mkDbEssay 1 (lit "Untitled") None None None (Some []) None
                 None))
  = lit "5 min read".
Proof.
  apply (empty_body_is_not_estimated 0%Z (fun _ => lit "May 2026")
           (mkDbEssay 1 (lit "Untitled") None None None (Some []) None None)).
  right. reflexivity.
Defined.

(** C8 as stated fails: the estimate of the empty string is "1 min read",
    not a "0 min" label, and an essay with an empty content is shown with
    "5 min read". *)
Lemma empty_body_not_zero_minutes :
  estimateReadTime [] = lit "1 min read"
  /\ estimateReadTime [] <> lit "0 min read"
  /\ firstn 5 (estimateReadTime []) <> lit "0 min"
  /\ readTime (toEssay 0%Z (fun _ => lit "May 2026")
                 (mkDbEssay 1 (lit "Untitled") None None None (Some []) None
                    None))
     = lit "5 min read".
Proof.
  split; [reflexivity|]. split; [vm_compute; discriminate|].
  split; [vm_compute; discriminate | reflexivity].
Qed.

(** C9, at the input where the code departs from it: a body of 400 words
    that ends with a line feed has 400 tokens, for which the specification
    gives "2 min read"; its split has 401 segments and the estimate is
    "3 min read". *)
Theorem estimateReadTime_trailing_newline :
  List.length (spec_tokens (body_with_newline 400)) = 400%nat
  /\ spec_readTime (body_with_newline 400) = lit "2 min read"
  /\ List.length (split_ws (body_with_newline 400)) = 401%nat
  /\ estimateReadTime (body_with_newline 400) = lit "3 min read".
Proof.
  repeat split; vm_compute; reflexivity.
Qed.

(** The two instances of C9 on bodies without surrounding white space. *)
Example estimateReadTime_400_words :
  estimateReadTime (body_of_words 400) = lit "2 min read".
Proof. vm_compute; reflexivity. Qed.

Example estimateReadTime_1_word :
  estimateReadTime (body_of_words 1) = lit "1 min read".
Proof. vm_compute; reflexivity. Qed.

Lemma existsb_str_eqb (x : jsstring) (s : list jsstring) :
  existsb (str_eqb x) s = true <-> In x s.
Proof.
  rewrite existsb_exists. split.
  - intros (y & Hy & Heq). apply str_eqb_eq in Heq. subst y; exact Hy.
  - intros Hx. exists x. split; [exact Hx | apply str_eqb_eq; reflexivity].
Qed.

Lemma set_add_In (s : list jsstring) (x c : jsstring) :
  In c (set_add s x) <-> In c s \/ c = x.
Proof.
  unfold set_add. destruct (existsb (str_eqb x) s) eqn:E.
  - apply existsb_str_eqb in E. split; [auto|]. intros [H | ->]; assumption.
  - rewrite in_app_iff. simpl. intuition.
Qed.

Lemma set_add_NoDup (s : list jsstring) (x : jsstring) :
  NoDup s -> NoDup (set_add s x).
Proof.
  intros Hs. unfold set_add. destruct (existsb (str_eqb x) s) eqn:E; [exact Hs|].
  assert (Hx : ~ In x s).
  { intro Hin. apply existsb_str_eqb in Hin. congruence. }
  clear E. induction s as [|y s IH]; simpl.
  - constructor; [intros [] | constructor].
  - inversion Hs as [|? ? Hy Hs']; subst. constructor.
    + rewrite in_app_iff. simpl. intros [H | [H | []]]; [exact (Hy H)|].
      apply Hx. left; symmetry; exact H.
    + apply IH; [exact Hs'|]. intro H. apply Hx. right; exact H.
Qed.

(** A Set built from a list holds each element of the list once. *)
Lemma fold_set_add (xs acc : list jsstring) :
  NoDup acc ->
  NoDup (fold_left set_add xs acc)
  /\ forall c, In c (fold_left set_add xs acc) <-> In c acc \/ In c xs.
Proof.
  revert acc; induction xs as [|x r IH]; intros acc Hacc; simpl.
  - split; [exact Hacc | intros c; tauto].
  - destruct (IH (set_add acc x) (set_add_NoDup acc x Hacc)) as [Hnd Hin].
    split; [exact Hnd|].
    intros c. rewrite Hin, set_add_In. intuition.
Qed.

Lemma filter_kept (selected : jsstring) (essays : list Essay) :
  kept_in_order selected essays
    (filter (fun essay => str_eqb (category essay) selected) essays).
Proof.
  induction essays as [|e r IH]; simpl; [constructor|].
  destruct (str_eqb (category e) selected) eqn:E.
  - apply kept_take; [apply str_eqb_eq; exact E | exact IH].
  - apply kept_drop; [apply str_eqb_neq; exact E | exact IH].
Qed.

(** C10. With the category "All" the filtered list is the whole collection;
    with another category it consists of exactly the essays of that category,
    in the order of the collection.  The selectable categories are "All"
    followed by the categories of the essays, each one once. *)
Theorem filteredEssays_categories (essays : list Essay)
    (selectedCategory : jsstring) :
  filteredEssays essays (lit "All") = essays
  /\ (selectedCategory <> lit "All" ->
      kept_in_order selectedCategory essays
        (filteredEssays essays selectedCategory)
      /\ forall e, In e (filteredEssays essays selectedCategory)
                   <-> In e essays /\ category e = selectedCategory)
  /\ exists distinct,
       categories essays = lit "All" :: distinct
       /\ NoDup distinct
       /\ forall c, In c distinct
                    <-> exists e, In e essays /\ category e = c.
Proof.
  split; [reflexivity|]. split.
  - intros Hsel. unfold filteredEssays.
    apply str_eqb_neq in Hsel. rewrite Hsel. split; [apply filter_kept|].
    intros e. rewrite filter_In, str_eqb_eq. tauto.
  - exists (new_Set (map category essays)). split; [reflexivity|].
    destruct (fold_set_add (map category essays) [] (NoDup_nil _))
      as [Hnd Hin].
    split; [exact Hnd|].
    intros c. unfold new_Set. rewrite Hin, in_map_iff. simpl. split.
    + intros [[] | (e & He & Hine)]. exists e; split; assumption.
    + intros (e & Hine & He). right. exists e; split; assumption.
Qed.

Lemma filteredEssays_categories_static :
  lit "Travel" <> lit "All"
  /\ kept_in_order (lit "Travel") staticEssays
       (filteredEssays staticEssays (lit "Travel")).
Proof.
  assert (H : lit "Travel" <> lit "All") by discriminate.
  split; [exact H|].
  exact (proj1 (proj1 (proj2 (filteredEssays_categories staticEssays
                                (lit "Travel"))) H)).
Defined.

Example categories_static :
  categories staticEssays = [lit "All"; lit "Photography"; lit "Travel"].
Proof. reflexivity. Qed.

Example filteredEssays_static_travel :
  map id (filteredEssays staticEssays (lit "Travel")) = [2%Z; 3%Z].
Proof. reflexivity. Qed.

End MagazineProps.

(* ================================================================= *)
(** ** The fallback policy of the two public pages *)

Module FallbackProps.
Import JS.


End FallbackProps.

(* ================================================================= *)
(** ** Properties of the paper administration page *)

Module AdminPapersProps.
Import JS AdminPapers.
Local Open Scope Z_scope.

(** [!s.trim()] holds exactly when nothing is left after trimming. *)
Lemma not_truthy_trim (s : jsstring) :
  negb (truthy_str (trim s)) = true <-> trim s = [].
Proof.
  destruct (trim s); simpl; split; congruence.
Qed.

Lemma if_truthy_Some (x : option Z) (n : Z) :
  if_truthy x = Some n <-> x = Some n /\ n <> 0.
Proof.
  unfold if_truthy.
  destruct x as [m|]; [|split; [discriminate | intros [? _]; discriminate]].
  destruct (m =? 0) eqn:E.
  - apply Z.eqb_eq in E. split; [discriminate|]. intros [H Hn]. congruence.
  - apply Z.eqb_neq in E. split.
    + intros H; injection H as <-. auto.
    + intros [H _]. exact H.
Qed.

(** Case analysis along the branches of [handleSubmit]: title missing,
    authors missing, update, create. *)
Ltac submit_cases s :=
  unfold handleSubmit;
  destruct (negb (truthy_str (trim (title (formData s)))));
  [|destruct (negb (truthy_str (trim (authors (formData s)))));
    [|destruct (if_truthy (editingId s))]].





(** The form follows the same rule for the timestamp it submits. *)
Lemma handleSubmit_publishedAt (now : Date) (s : State) (e : Effect) :
  In e (snd (handleSubmit now s)) ->
  let stamp := if published (formData s) then Some now else None in
  match e with
  | create_mutate input => c_publishedAt input = stamp
  | update_mutate input => u_publishedAt input = stamp
  | _ => True
  end.
Proof.
  submit_cases s; intros [<- | []]; first [exact I | reflexivity].
Qed.

(** C3. When the title or the authors are empty after trimming, the submit
    handler only shows a validation message: the state is unchanged and no
    remote call is made.  When both are non-empty it makes exactly one remote
    call, an update of the paper being edited or else a create, with the
    fields of the draft.  So a remote call is made only when both fields are
    non-empty after trimming. *)
Theorem handleSubmit_validation (now : Date) (s : State) :
  let draft := formData s in
  (trim (title draft) = [] \/ trim (authors draft) = [] ->
   exists msg,
     handleSubmit now s = (s, [toast_error msg])
     /\ (msg = msg_need_title \/ msg = msg_need_authors)
     /\ forall e, In e (snd (handleSubmit now s)) -> ~ is_submission e)
  /\ (trim (title draft) <> [] -> trim (authors draft) <> [] ->
      exists call,
        handleSubmit now s = (s, [call])
        /\ is_submission call
        /\ call
           = let publishedAt := if published draft then Some now else None in
             match if_truthy (editingId s) with
             | Some id => update_mutate (update_of_form id draft publishedAt)
             | None => create_mutate (mkCreate draft publishedAt)
             end)
  /\ (forall e, In e (snd (handleSubmit now s)) -> is_submission e ->
      trim (title draft) <> [] /\ trim (authors draft) <> []).
Proof.
  intros draft. unfold handleSubmit. fold draft.
  destruct (negb (truthy_str (trim (title draft)))) eqn:Et.
  { apply not_truthy_trim in Et.
    assert (Hno : forall e, In e [toast_error msg_need_title] ->
                            ~ is_submission e).
    { intros e [<- | []] [[i H] | [i H]]; discriminate. }
    split; [|split].
    - intros _. exists msg_need_title. simpl. auto.
    - intros Ht. contradiction.
    - simpl. intros e He Hs. destruct (Hno e He Hs). }
  assert (Ht : trim (title draft) <> []).
  { intro H. apply not_truthy_trim in H. congruence. }
  destruct (negb (truthy_str (trim (authors draft)))) eqn:Ea.
  { apply not_truthy_trim in Ea.
    assert (Hno : forall e, In e [toast_error msg_need_authors] ->
                            ~ is_submission e).
    { intros e [<- | []] [[i H] | [i H]]; discriminate. }
    split; [|split].
    - intros _. exists msg_need_authors. simpl. auto.
    - intros _ Hau. contradiction.
    - simpl. intros e He Hs. destruct (Hno e He Hs). }
  assert (Hau : trim (authors draft) <> []).
  { intro H. apply not_truthy_trim in H. congruence. }
  split; [|split].
  - intros [H | H]; contradiction.
  - intros _ _. destruct (if_truthy (editingId s)) as [id|]; eexists;
      (split; [reflexivity|]); (split; [|reflexivity]).
    + right; eauto.
    + left; eauto.
  - intros e _ _. split; assumption.
Qed.

Lemma handleSubmit_validation_initial :
  trim (title (formData (initial 2026))) = []
  /\ exists msg,
       handleSubmit 1800000000000 (initial 2026)
       = (initial 2026, [toast_error msg]).
Proof.
  assert (H : trim (title (formData (initial 2026))) = []) by reflexivity.
  split; [exact H|].
  destruct (proj1 (handleSubmit_validation 1800000000000 (initial 2026))
              (or_introl H))
    as (msg & Hrun & _).
  exists msg. exact Hrun.
Defined.

(** C4. When a create or an update succeeds, the cached collection is
    invalidated, a success notification is shown, the edit dialog is closed
    and the draft is reset to the defaults (the other cells of the state are
    untouched).  When it fails, the only effect is an error notification made
    of a fixed prefix and the message of the failure, and the state, with the
    open dialog and its draft, is unchanged. *)
Theorem submission_outcome (getFullYear : Date -> Z) (loadYear : Z)
    (s : State) (message : jsstring) :
  let settled e := handle getFullYear loadYear e s in
  let closed :=
    {| isDialogOpen := false;
       isDeleteDialogOpen := isDeleteDialogOpen s;
       editingId := None;
       deletingId := deletingId s;
       formData := defaultFormData loadYear |} in
  settled (create_settled succeeded)
  = (closed, [invalidate_listAll; toast_success msg_created])
  /\ settled (update_settled succeeded)
     = (closed, [invalidate_listAll; toast_success msg_updated])
  /\ settled (create_settled (failed message))
     = (s, [toast_error (msg_create_failed ++ message)])
  /\ settled (update_settled (failed message))
     = (s, [toast_error (msg_update_failed ++ message)])
  /\ closed = closeDialog_state loadYear s
  /\ formData closed
     = {| title := []; authors := []; abstract := []; journal := [];
          year := loadYear; volume := []; issue := []; pages := [];
          doi := []; pdfUrl := []; pdfKey := []; category := []; tags := [];
          citations := 0; featured := false; published := false |}.
Proof.
  repeat split.
Qed.

Section Sessions.
Variable getFullYear : Date -> Z.
Variable loadYear : Z.

Let step := handle getFullYear loadYear.
Let session := run getFullYear loadYear (initial loadYear) [].

Lemma run_log (s : State) (log : list Effect) (es : list Event) :
  run getFullYear loadYear s log es
  = (fst (run getFullYear loadYear s [] es),
     log ++ snd (run getFullYear loadYear s [] es)).
Proof.
  revert s log; induction es as [|e r IH]; intros s log; simpl.
  - rewrite app_nil_r. reflexivity.
  - destruct (handle getFullYear loadYear e s) as [s' out].
    rewrite (IH s' (log ++ out)), (IH s' out). simpl.
    rewrite app_assoc. reflexivity.
Qed.

Lemma run_app (s : State) (log : list Effect) (es1 es2 : list Event) :
  run getFullYear loadYear s log (es1 ++ es2)
  = run getFullYear loadYear
      (fst (run getFullYear loadYear s log es1))
      (snd (run getFullYear loadYear s log es1)) es2.
Proof.
  revert s log; induction es1 as [|e r IH]; intros s log; simpl.
  - reflexivity.
  - destruct (handle getFullYear loadYear e s) as [s' out]. apply IH.
Qed.

(** One more event at the end of a session. *)
Lemma session_snoc (es : list Event) (e : Event) :
  session (es ++ [e])
  = (fst (step e (fst (session es))),
     snd (session es) ++ snd (step e (fst (session es)))).
Proof.
  unfold session, step. rewrite run_app, run_log. simpl.
  destruct (handle getFullYear loadYear e
              (fst (run getFullYear loadYear (initial loadYear) [] es)))
    as [s' out].
  reflexivity.
Qed.

(** The only handler that calls the remote delete is the confirmation, and
    it does so for the pending identifier. *)
Lemma delete_mutate_origin (e : Event) (s : State) (id : Z) :
  In (delete_mutate id) (snd (step e s)) ->
  e = click_confirm_delete /\ deletingId s = Some id /\ id <> 0.
Proof.
  unfold step. destruct e as [ | paper now | paper now | paper | | now | f
                             | b | b | | o | o | o ]; simpl.
  - intros [].
  - intros [].
  - intros [H | []]; discriminate.
  - intros [].
  - intros [].
  - submit_cases s; intros [H | []]; discriminate.
  - intros [].
  - intros [].
  - intros [].
  - unfold handleDelete. destruct (if_truthy (deletingId s)) as [n|] eqn:E;
      [|intros []].
    intros [H | []]. injection H as ->.
    apply if_truthy_Some in E. tauto.
  - destruct o; simpl; intuition discriminate.
  - destruct o; simpl; intuition discriminate.
  - destruct o; simpl; intuition discriminate.
Qed.

(** A pending identifier was put there by a click on the trash button of a
    paper with that identifier. *)
Lemma deletingId_origin (es : list Event) (id : Z) :
  deletingId (fst (session es)) = Some id ->
  exists paper, In (click_trash paper) es /\ paper_id paper = id.
Proof.
  induction es as [|e es IH] using rev_ind; [discriminate|].
  rewrite session_snoc. simpl fst.
  assert (Hkeep : deletingId (fst (step e (fst (session es))))
                  = deletingId (fst (session es)) ->
                  deletingId (fst (step e (fst (session es)))) = Some id ->
                  exists paper,
                    In (click_trash paper) (es ++ [e]) /\ paper_id paper = id).
  { intros Heq H. rewrite Heq in H. destruct (IH H) as (paper & Hin & Hid).
    exists paper. split; [apply in_or_app; left; exact Hin | exact Hid]. }
  generalize dependent (fst (session es)). intros s IH Hkeep.
  unfold step in *.
  destruct e as [ | paper now | paper now | paper | | now | f
                | b | b | | o | o | o ]; simpl in *;
    try (apply Hkeep; reflexivity).
  - intros H. exists paper. split; [apply in_or_app; right; left; reflexivity|].
    congruence.
  - apply Hkeep. submit_cases s; reflexivity.
  - apply Hkeep. unfold handleDelete.
    destruct (if_truthy (deletingId s)); reflexivity.
  - destruct o; simpl; apply Hkeep; reflexivity.
  - destruct o; simpl; apply Hkeep; reflexivity.
  - destruct o; simpl; [discriminate | apply Hkeep; reflexivity].
Qed.

(** C6. The click on the trash button of a paper only records the pending
    identifier and opens the confirmation dialog: it has no effect outside
    the state.  In every session from the initial state, a remote delete of
    an identifier was called by a click on the confirm button, made while
    that identifier was the pending one, and after a click on the trash
    button of a paper with that identifier. *)
Theorem delete_needs_confirmation (es : list Event) :
  (forall paper s,
     step (click_trash paper) s
     = ({| isDialogOpen := isDialogOpen s;
           isDeleteDialogOpen := true;
           editingId := editingId s;
           deletingId := Some (paper_id paper);
           formData := formData s |}, []))
  /\ forall id,
       In (delete_mutate id) (snd (session es)) ->
       exists before after paper,
         es = before ++ click_confirm_delete :: after
         /\ deletingId (fst (session before)) = Some id
         /\ id <> 0
         /\ In (click_trash paper) before
         /\ paper_id paper = id.
Proof.
  split; [reflexivity|].
  induction es as [|e es IH] using rev_ind; intros id Hin.
  - destruct Hin.
  - rewrite session_snoc in Hin. simpl snd in Hin.
    apply in_app_or in Hin as [Hold | Hnew].
    + destruct (IH id Hold) as (before & after & paper & -> & H).
      exists before, (after ++ [e]), paper.
      split; [|exact H].
      rewrite <- app_assoc. reflexivity.
    + apply delete_mutate_origin in Hnew as (-> & Hpending & Hid).
      destruct (deletingId_origin es id Hpending) as (paper & Htrash & Hp).
      exists es, [], paper. auto.
Qed.

End Sessions.

Lemma delete_needs_confirmation_sample :
  In (delete_mutate 7)
     (snd (run (fun _ => 2026) 2026 (initial 2026) []
             [click_trash sample_paper; click_confirm_delete]))
  /\ exists before after,
       [click_trash sample_paper; click_confirm_delete]
       = before ++ click_confirm_delete :: after
       /\ deletingId (fst (run (fun _ => 2026) 2026 (initial 2026) [] before))
          = Some 7.
Proof.
  assert (H : In (delete_mutate 7)
                (snd (run (fun _ => 2026) 2026 (initial 2026) []
                        [click_trash sample_paper; click_confirm_delete])))
    by (simpl; auto).
  split; [exact H|].
  destruct (proj2 (delete_needs_confirmation (fun _ => 2026) 2026
                     [click_trash sample_paper; click_confirm_delete]) 7 H)
    as (before & after & paper & Hes & Hpending & _).
  exists before, after. split; assumption.
Defined.

(** The trash button alone never reaches the remote delete. *)
Example trash_alone_makes_no_call :
  snd (run (fun _ => 2026) 2026 (initial 2026) []
         [click_trash sample_paper; delete_dialog_open_change false;
          click_trash sample_paper])
  = [].
Proof. reflexivity. Qed.

End AdminPapersProps.

(* ================================================================= *)
(** ** More on the gallery: navigation on any collection, the scroll lock *)

Module GalleryProps.
Import JS Photography Gallery PhotographyProps.
Local Open Scope Z_scope.

(** [findIndex] answers -1 or a position of the list. *)
Lemma findIndex_from_range {A} (p : A -> bool) (xs : list A) (i : Z) :
  findIndex_from p xs i = -1
  \/ i <= findIndex_from p xs i < i + Z.of_nat (List.length xs).
Proof.
  revert i; induction xs as [|x r IH]; intros i; simpl; [left; reflexivity|].
  destruct (p x); [right; lia|].
  destruct (IH (i + 1)) as [H | H]; [left; exact H | right; lia].
Qed.

(** The remainder computed by a step is a position of the collection. *)
Lemma step_index_range (N x : Z) :
  1 <= N -> 0 <= x \/ (x = -1 /\ N = 1) ->
  exists r, rem x N = Some r /\ 0 <= r < N.
Proof.
  intros HN Hx. unfold rem.
  replace (N =? 0) with false by (symmetry; apply Z.eqb_neq; lia).
  eexists; split; [reflexivity|].
  destruct Hx as [Hx | [-> ->]].
  - rewrite Z.rem_mod_nonneg by lia. apply Z.mod_pos_bound; lia.
  - replace (Z.rem (-1) 1) with 0 by reflexivity. lia.
Qed.

(** A step from a selection ends inside the collection, and fails only on
    the empty one. *)
Lemma navigatePhoto_range (photos : list Photo) (sel : Photo)
    (direction : Direction) :
  (navigatePhoto photos (Some sel) direction = None <-> photos = [])
  /\ (forall p, navigatePhoto photos (Some sel) direction = Some p ->
                In p photos)
  /\ navigatePhoto photos None direction = None.
Proof.
  assert (Hin : forall p, navigatePhoto photos (Some sel) direction = Some p ->
                          In p photos).
  { intros p. unfold navigatePhoto.
    destruct direction; unfold at_index;
      match goal with |- context [rem ?a ?b] => destruct (rem a b) as [r|] end;
      try discriminate;
      (destruct (r <? 0); [discriminate | apply nth_error_In]). }
  split; [|split; [exact Hin | reflexivity]].
  split.
  - intros Hnone. destruct photos as [|p0 r0]; [reflexivity|]. exfalso.
    revert Hnone. unfold navigatePhoto.
    set (cur := findIndex (same_id sel) (p0 :: r0)).
    set (N := Z.of_nat (List.length (p0 :: r0))).
    assert (HN : 1 <= N) by (subst N; simpl List.length; lia).
    assert (Hcur : -1 <= cur < N).
    { subst cur N. unfold findIndex.
      destruct (findIndex_from_range (same_id sel) (p0 :: r0) 0); lia. }
    assert (Hx : let x := match direction with
                          | next => cur + 1
                          | prev => cur - 1 + N
                          end in
                 0 <= x \/ (x = -1 /\ N = 1))
      by (destruct direction; simpl; lia).
    destruct (step_index_range N _ HN Hx) as (r & Hr & Hrange).
    destruct direction; rewrite Hr; unfold at_index;
      (replace (r <? 0) with false by (symmetry; apply Z.ltb_ge; lia));
      intros Hnone; apply nth_error_None in Hnone; subst N; lia.
  - intros ->. unfold navigatePhoto. destruct direction; reflexivity.
Qed.

(** X1. On any collection, with or without repeated identifiers and whether
    or not the selection is still part of it, a step selects an item of the
    collection; the selection becomes undefined exactly when the collection
    is empty.  Without a selection a step does nothing. *)
Theorem navigatePhoto_stays_inside (photos : list Photo) (sel : Photo)
    (direction : Direction) :
  (navigatePhoto photos (Some sel) direction = None <-> photos = [])
  /\ (forall p, navigatePhoto photos (Some sel) direction = Some p ->
                In p photos)
  /\ navigatePhoto photos None direction = None.
Proof.
  exact (navigatePhoto_range photos sel direction).
Qed.

(** X2. The displayed collection is never empty, whatever the query returns,
    so the empty state of the grid is never rendered and a step from an open
    lightbox always selects a displayed photo. *)
Theorem photos_never_empty (now : Date) (getFullYear : Date -> Z)
    (dbPhotos : option (list DbPhoto)) (sel : Photo) (direction : Direction) :
  photos now getFullYear dbPhotos <> []
  /\ exists p,
       navigatePhoto (photos now getFullYear dbPhotos) (Some sel) direction
       = Some p
       /\ In p (photos now getFullYear dbPhotos).
Proof.
  assert (Hne : photos now getFullYear dbPhotos <> []).
  { destruct dbPhotos as [[|p r]|]; simpl; discriminate. }
  split; [exact Hne|].
  destruct (navigatePhoto_range (photos now getFullYear dbPhotos)
              sel direction) as ([Hnone _] & Hin & _).
  destruct (navigatePhoto (photos now getFullYear dbPhotos) (Some sel)
              direction) as [p|] eqn:E.
  - exists p. split; [reflexivity | apply Hin; reflexivity].
  - destruct (Hne (Hnone eq_refl)).
Qed.

Section Sessions.
Variable getFullYear : Date -> Z.

Lemma step_keeps_lock (inherited : jsstring) (e : GalleryEvent) (pg : Page) :
  lock_follows_lightbox inherited pg ->
  lock_follows_lightbox inherited (step getFullYear e pg).
Proof.
  intros (Hne & Hopen & Hclosed). unfold lock_follows_lightbox.
  destruct e as [db now | photo | | photo | | d]; simpl;
    try (split; [exact Hne | split; assumption]).
  - split; [|split; assumption].
    destruct db as [[|p r]|]; simpl; discriminate.
  - split; [exact Hne|]. split; [reflexivity | discriminate].
  - split; [exact Hne|]. split; [congruence | left; reflexivity].
  - split; [exact Hne|].
    destruct (selectedPhoto pg) as [sel|] eqn:Esel; simpl.
    + destruct (navigatePhoto_range (photos_memo pg) sel d)
        as ([Hnone _] & _ & _).
      split.
      * intros _. apply Hopen. discriminate.
      * intros H. destruct (Hne (Hnone H)).
    + split; [congruence | intros _; apply Hclosed; reflexivity].
Qed.

Lemma session_keeps_lock (inherited : jsstring) (es : list GalleryEvent)
    (pg : Page) :
  lock_follows_lightbox inherited pg ->
  lock_follows_lightbox inherited (session getFullYear pg es).
Proof.
  revert pg; induction es as [|e r IH]; intros pg H; simpl; [exact H|].
  apply IH, step_keeps_lock, H.
Qed.

(** Before the first click that opens or closes the lightbox nothing is
    selected and the overflow is untouched. *)
Lemma session_without_lightbox_click (es : list GalleryEvent) (pg : Page) :
  Forall no_lightbox_click es ->
  selectedPhoto pg = None ->
  selectedPhoto (session getFullYear pg es) = None
  /\ body_overflow (session getFullYear pg es) = body_overflow pg.
Proof.
  revert pg; induction es as [|e r IH]; intros pg Hall Hsel; simpl;
    [split; [exact Hsel | reflexivity]|].
  inversion Hall as [|? ? He Hr]; subst.
  assert (Hstep : selectedPhoto (step getFullYear e pg) = None
                  /\ body_overflow (step getFullYear e pg)
                     = body_overflow pg).
  { destruct e as [db now | photo | | photo | | d]; simpl in He |- *;
      try contradiction; try (split; [exact Hsel | reflexivity]).
    rewrite Hsel. split; reflexivity. }
  destruct Hstep as [Hs Ho].
  destruct (IH (step getFullYear e pg) Hr Hs) as [H1 H2].
  split; [exact H1 | rewrite H2; exact Ho].
Qed.

(** X3. Scroll lock.  In every session of the page, whatever overflow the
    body had when the page was mounted: while a photo is selected the body
    overflow is "hidden"; while none is selected it is "auto" or still the
    value found at the mount, which the page does not touch before the first
    click that opens or closes the lightbox.  So the body is locked exactly
    while the lightbox is shown when the page was not mounted on a locked
    body, and a lock found at the mount is only released by closing a
    lightbox.  The memoized collection is never empty. *)
Theorem scroll_lock_follows_lightbox (inherited : jsstring) (now : Date)
    (es : list GalleryEvent) :
  let pg := session getFullYear (mounted getFullYear now inherited) es in
  photos_memo pg <> []
  /\ (selectedPhoto pg <> None -> body_overflow pg = overflow_hidden)
  /\ (selectedPhoto pg = None ->
      body_overflow pg = overflow_auto \/ body_overflow pg = inherited)
  /\ (inherited <> overflow_hidden ->
      (selectedPhoto pg <> None <-> body_overflow pg = overflow_hidden))
  /\ (Forall no_lightbox_click es ->
      selectedPhoto pg = None /\ body_overflow pg = inherited).
Proof.
  intros pg.
  assert (Hinv : lock_follows_lightbox inherited pg).
  { apply session_keeps_lock. split; [discriminate|].
    simpl. split; [congruence | intros _; right; reflexivity]. }
  destruct Hinv as (Hne & Hopen & Hclosed).
  split; [exact Hne|]. split; [exact Hopen|]. split; [exact Hclosed|].
  split.
  - intros Hfree. split; [exact Hopen|].
    intros Hlocked Hsel. destruct (Hclosed Hsel) as [H | H].
    + rewrite Hlocked in H. discriminate.
    + apply Hfree. rewrite <- H. exact Hlocked.
  - intros Hall.
    exact (session_without_lightbox_click es
             (mounted getFullYear now inherited) Hall eq_refl).
Qed.

End Sessions.

(** X4. Distinct identifiers carry over from the remote rows to the displayed
    photos, and the built-in photos have distinct identifiers: the displayed
    collection has pairwise distinct identifiers whenever the rows have. *)
Theorem photos_distinct_ids (now : Date) (getFullYear : Date -> Z)
    (dbPhotos : option (list DbPhoto)) :
  (forall rows, dbPhotos = Some rows -> NoDup (map db_id rows)) ->
  NoDup (map id (photos now getFullYear dbPhotos))
  /\ (forall rows, dbPhotos = Some rows -> rows <> [] ->
      map id (photos now getFullYear dbPhotos) = map db_id rows).
Proof.
  intros Hrows.
  assert (Hstatic : NoDup (map id staticPhotos)).
  { simpl. repeat constructor; simpl; intuition discriminate. }
  destruct dbPhotos as [[|p r]|].
  - split; [exact Hstatic|]. intros rows H Hne. injection H as <-.
    contradiction.
  - assert (Hmap : map id (photos now getFullYear (Some (p :: r)))
                   = map db_id (p :: r)).
    { unfold photos. rewrite map_map. reflexivity. }
    split.
    + rewrite Hmap. apply Hrows. reflexivity.
    + intros rows H _. injection H as <-. exact Hmap.
  - split; [exact Hstatic|]. intros rows H. discriminate.
Qed.

Lemma photos_distinct_ids_sample :
  NoDup (map id (photos 0 (fun _ => 2026)
                   (Some [mkDbPhoto 4 (lit "/a.jpg") (lit "A") None None None
                            None None None;
                          mkDbPhoto 9 (lit "/b.jpg") (lit "B") None None None
                            None None None]))).
Proof.
  apply (photos_distinct_ids 0 (fun _ => 2026)).
  intros rows H. injection H as <-. simpl.
  repeat constructor; simpl; intuition discriminate.
Defined.

(** X5. When the identifier of the selection is no longer in a non-empty
    collection of N photos, the computed index is -1 and "prev" computes
    (-2 + N) % N: it selects the item before the last one, and the only item
    of a collection of one. *)
Theorem navigatePhoto_prev_after_removal (photos : list Photo) (sel : Photo) :
  photos <> [] ->
  ~ In (id sel) (map id photos) ->
  let N := Z.of_nat (List.length photos) in
  findIndex (same_id sel) photos = -1
  /\ navigatePhoto photos (Some sel) prev
     = item photos (if N =? 1 then 0 else N - 2)
  /\ exists p, navigatePhoto photos (Some sel) prev = Some p /\ In p photos.
Proof.
  intros Hne Hout N. split; [|split].
  - unfold findIndex. apply findIndex_from_absent.
    intros x Hx. unfold same_id. apply Z.eqb_neq. intro Heq.
    apply Hout. rewrite <- Heq. apply in_map; exact Hx.
  - exact (navigatePhoto_absent_prev photos sel Hne Hout).
  - destruct (navigatePhoto_range photos sel prev) as ([Hnone _] & Hin & _).
    destruct (navigatePhoto photos (Some sel) prev) as [p|] eqn:E.
    + exists p. split; [reflexivity | apply Hin; reflexivity].
    + destruct (Hne (Hnone eq_refl)).
Qed.

Lemma navigatePhoto_prev_after_removal_static :
  navigatePhoto staticPhotos (Some ghost) prev = item staticPhotos 4.
Proof.
  apply (navigatePhoto_prev_after_removal staticPhotos ghost).
  - discriminate.
  - simpl. intuition discriminate.
Defined.

End GalleryProps.

(* ================================================================= *)
(** ** More on the magazine: category tabs, read time, displayed essays *)

Module MagazineMore.
Import JS Magazine MagazinePage JSProps MagazineProps.

(** When the filtered list is empty. *)
Lemma filtered_nil_iff (essays : list Essay) (selectedCategory : jsstring) :
  filteredEssays essays selectedCategory = []
  <-> essays = []
      \/ (selectedCategory <> lit "All"
          /\ forall e, In e essays -> category e <> selectedCategory).
Proof.
  unfold filteredEssays.
  destruct (str_eqb selectedCategory (lit "All")) eqn:E.
  - apply str_eqb_eq in E. split; [auto|].
    intros [H | [H _]]; [exact H | contradiction].
  - apply str_eqb_neq in E. split.
    + intros Hnil. right. split; [exact E|].
      intros e He Hcat.
      assert (Hin : In e (filter (fun essay =>
                                    str_eqb (category essay) selectedCategory)
                            essays)).
      { apply filter_In. split; [exact He | apply str_eqb_eq; exact Hcat]. }
      rewrite Hnil in Hin. destruct Hin.
    + intros [-> | [_ Hnone]]; [reflexivity|].
      induction essays as [|e r IH]; [reflexivity|]. simpl.
      destruct (str_eqb (category e) selectedCategory) eqn:Ee.
      * apply str_eqb_eq in Ee. destruct (Hnone e (or_introl eq_refl) Ee).
      * apply IH. intros x Hx. apply Hnone. right; exact Hx.
Qed.

(** X6. The filtered list is empty, so that the page shows its empty state,
    exactly when there is no essay at all or when the selected category is
    not "All" and no essay has it. *)
Theorem filteredEssays_empty_iff (essays : list Essay)
    (selectedCategory : jsstring) :
  filteredEssays essays selectedCategory = []
  <-> essays = []
      \/ (selectedCategory <> lit "All"
          /\ forall e, In e essays -> category e <> selectedCategory).
Proof.
  exact (filtered_nil_iff essays selectedCategory).
Qed.

(** The set of the categories of a list has the members of the list. *)
Lemma new_Set_In (xs : list jsstring) (c : jsstring) :
  In c (new_Set xs) <-> In c xs.
Proof.
  destruct (fold_set_add xs [] (NoDup_nil _)) as [_ Hin].
  unfold new_Set. rewrite Hin. simpl. tauto.
Qed.

Lemma new_Set_NoDup (xs : list jsstring) : NoDup (new_Set xs).
Proof.
  exact (proj1 (fold_set_add xs [] (NoDup_nil _))).
Qed.

Lemma essays_never_empty (now : Date) (monthYear : Date -> jsstring)
    (dbEssays : option (list DbEssay)) :
  essays now monthYear dbEssays <> [].
Proof.
  destruct dbEssays as [[|e r]|]; simpl; discriminate.
Qed.

(** In one and the same render, a category among the tabs selects at least
    one of the essays. *)
Lemma offered_category_has_essays (now : Date)
    (monthYear : Date -> jsstring) (dbEssays : option (list DbEssay))
    (c : jsstring) :
  In c (categories (essays now monthYear dbEssays)) ->
  exists featured rest,
    filteredEssays (essays now monthYear dbEssays) c = featured :: rest.
Proof.
  intros Hc.
  assert (Hne := essays_never_empty now monthYear dbEssays).
  destruct (filteredEssays (essays now monthYear dbEssays) c)
    as [|featured rest] eqn:E; [|eauto].
  exfalso. apply filtered_nil_iff in E as [E | [Hall Hnone]].
  - exact (Hne E).
  - destruct Hc as [Hc | Hc]; [congruence|].
    apply new_Set_In, in_map_iff in Hc as (e & He & Hin).
    exact (Hnone e Hin He).
Qed.

Lemma mag_session_essays (monthYear : Date -> jsstring) (es : list MagEvent)
    (pg : MagPage) :
  (exists now db, essays_memo pg = essays now monthYear db) ->
  exists now db,
    essays_memo (mag_session monthYear pg es) = essays now monthYear db.
Proof.
  revert pg; induction es as [|e r IH]; intros pg H; simpl; [exact H|].
  apply IH. destruct e as [db now | c]; simpl; [eauto | exact H].
Qed.

(** X7. In every session of the page, a click on a tab that the page offers
    is followed by a filtered list that is not empty: there is a featured
    essay.  The selected category is state and survives new data: after the
    next data the filtered list is empty exactly when the selection is not
    "All" and no essay of the new collection has it. *)
Theorem tab_click_shows_essays (monthYear : Date -> jsstring) (now : Date)
    (es : list MagEvent) (c : jsstring) :
  let pg := mag_session monthYear (mag_mounted monthYear now) es in
  In c (tabs pg) ->
  (exists featured rest,
     shown (mag_step monthYear (click_tab c) pg) = featured :: rest)
  /\ forall dbEssays later,
       shown (mag_step monthYear (essays_data dbEssays later)
                (mag_step monthYear (click_tab c) pg)) = []
       <-> c <> lit "All"
           /\ forall e, In e (essays later monthYear dbEssays) ->
                        category e <> c.
Proof.
  intros pg Hc. split.
  - destruct (mag_session_essays monthYear es (mag_mounted monthYear now))
      as (now' & db & Hmemo); [exists now, None; reflexivity|].
    unfold shown, tabs in *. simpl. fold pg in Hmemo. rewrite Hmemo in *.
    exact (offered_category_has_essays now' monthYear db c Hc).
  - intros dbEssays later. unfold shown. simpl.
    rewrite filtered_nil_iff. split.
    + intros [H | H]; [|exact H].
      destruct (essays_never_empty later monthYear dbEssays H).
    + intros H. right. exact H.
Qed.

Lemma tab_click_shows_essays_static :
  exists featured rest,
    shown (mag_step (fun _ => lit "May 2026") (click_tab (lit "Travel"))
             (mag_mounted (fun _ => lit "May 2026") 0%Z))
    = featured :: rest.
Proof.
  apply (tab_click_shows_essays (fun _ => lit "May 2026") 0%Z []
           (lit "Travel")).
  simpl. right; right; left; reflexivity.
Defined.

(** X8. The tabs are pairwise distinct exactly when no essay has the
    category "All": such an essay makes "All" appear twice. *)
Theorem categories_distinct_iff (essays : list Essay) :
  NoDup (categories essays)
  <-> forall e, In e essays -> category e <> lit "All".
Proof.
  unfold categories. split.
  - intros Hnd e He Hcat. inversion Hnd as [|? ? Hnotin _]; subst.
    apply Hnotin, new_Set_In, in_map_iff. exists e; split; assumption.
  - intros Hnone. constructor; [|apply new_Set_NoDup].
    intros Hin. apply new_Set_In, in_map_iff in Hin as (e & He & Hin).
    exact (Hnone e Hin He).
Qed.

Lemma fold_set_add_prefix (xs acc : list jsstring) :
  exists later, fold_left set_add xs acc = acc ++ later.
Proof.
  revert acc; induction xs as [|x r IH]; intros acc; simpl.
  - exists []. rewrite app_nil_r. reflexivity.
  - destruct (IH (set_add acc x)) as (later & ->). unfold set_add.
    destruct (existsb (str_eqb x) acc).
    + exists later. reflexivity.
    + exists (x :: later). rewrite <- app_assoc. reflexivity.
Qed.

(** X9. The tabs follow the first appearance of each category: the tabs of
    the essays up to the first essay of a category are followed by that
    category. *)
Theorem categories_first_appearance (before after : list Essay) (e : Essay) :
  (forall b, In b before -> category b <> category e) ->
  exists later,
    categories (before ++ e :: after)
    = categories before ++ category e :: later.
Proof.
  intros Hfirst. unfold categories, new_Set.
  rewrite map_app, fold_left_app. simpl.
  fold (new_Set (map category before)).
  assert (Hnew : existsb (str_eqb (category e))
                   (new_Set (map category before)) = false).
  { destruct (existsb (str_eqb (category e))
                (new_Set (map category before))) eqn:E; [|reflexivity].
    apply existsb_str_eqb, new_Set_In, in_map_iff in E as (b & Hb & Hin).
    destruct (Hfirst b Hin Hb). }
  unfold set_add at 2. rewrite Hnew.
  destruct (fold_set_add_prefix (map category after)
              (new_Set (map category before) ++ [category e]))
    as (later & ->).
  exists later. rewrite <- app_assoc. reflexivity.
Qed.

Lemma categories_first_appearance_static :
  exists later,
    categories staticEssays
    = categories (firstn 1 staticEssays) ++ lit "Travel" :: later.
Proof.
  destruct (skipn 1 staticEssays) as [|e after] eqn:E; [discriminate|].
  injection E as <- <-.
  apply (categories_first_appearance (firstn 1 staticEssays)).
  simpl. intros b [<- | []]. discriminate.
Defined.

(** Counting the essays of each category. *)
Lemma list_sum_zero {A} (u : list A) : list_sum (map (fun _ => 0) u) = 0.
Proof. induction u; simpl; auto. Qed.

Lemma list_sum_add {A} (f g : A -> nat) (u : list A) :
  list_sum (map (fun c => f c + g c) u)
  = list_sum (map f u) + list_sum (map g u).
Proof. induction u as [|c u IH]; simpl; [reflexivity | rewrite IH; lia]. Qed.

Lemma list_sum_indicator (x : jsstring) (u : list jsstring) :
  NoDup u -> In x u ->
  list_sum (map (fun c => if str_eqb x c then 1 else 0) u) = 1.
Proof.
  induction u as [|c u IH]; intros Hnd Hin; [destruct Hin|].
  inversion Hnd as [|? ? Hc Hu]; subst. simpl.
  destruct (str_eqb x c) eqn:E.
  - apply str_eqb_eq in E. subst c.
    rewrite (map_ext_in _ (fun _ => 0)), list_sum_zero; [reflexivity|].
    intros d Hd. destruct (str_eqb x d) eqn:Ed; [|reflexivity].
    apply str_eqb_eq in Ed. subst d. contradiction.
  - apply str_eqb_neq in E. destruct Hin as [-> | Hin]; [congruence|].
    rewrite (IH Hu Hin). reflexivity.
Qed.

Lemma count_by_category (u : list jsstring) (essays : list Essay) :
  NoDup u ->
  (forall e, In e essays -> In (category e) u) ->
  list_sum (map (fun c =>
                   List.length (filter (fun essay =>
                                          str_eqb (category essay) c) essays))
              u)
  = List.length essays.
Proof.
  intros Hnd. induction essays as [|e r IH]; intros Hall; simpl.
  - apply list_sum_zero.
  - rewrite (map_ext _ (fun c =>
               (if str_eqb (category e) c then 1 else 0)
               + List.length (filter (fun essay =>
                                        str_eqb (category essay) c) r))).
    + rewrite list_sum_add.
      rewrite (list_sum_indicator (category e) u Hnd
                 (Hall e (or_introl eq_refl))).
      rewrite IH; [reflexivity|].
      intros x Hx. apply Hall. right; exact Hx.
    + intros c. destruct (str_eqb (category e) c); reflexivity.
Qed.

(** X10. When no essay has the category "All", the tabs other than "All"
    split the essays: the numbers of essays under these tabs add up to the
    number of essays, and every essay is listed under the tab of its
    category. *)
Theorem tabs_partition_essays (essays : list Essay) :
  (forall e, In e essays -> category e <> lit "All") ->
  list_sum (map (fun c => List.length (filteredEssays essays c))
              (tl (categories essays)))
  = List.length essays
  /\ forall e, In e essays ->
       In (category e) (tl (categories essays))
       /\ In e (filteredEssays essays (category e)).
Proof.
  intros Hnone. unfold categories. simpl tl. split.
  - rewrite (map_ext_in _ (fun c =>
               List.length (filter (fun essay =>
                                      str_eqb (category essay) c) essays))).
    + apply count_by_category; [apply new_Set_NoDup|].
      intros e He. apply new_Set_In, in_map; exact He.
    + intros c Hc. apply new_Set_In, in_map_iff in Hc as (e & <- & He).
      unfold filteredEssays.
      replace (str_eqb (category e) (lit "All")) with false
        by (symmetry; apply str_eqb_neq, Hnone, He).
      reflexivity.
  - intros e He. split; [apply new_Set_In, in_map; exact He|].
    unfold filteredEssays.
    replace (str_eqb (category e) (lit "All")) with false
      by (symmetry; apply str_eqb_neq, Hnone, He).
    apply filter_In. split; [exact He | apply str_eqb_eq; reflexivity].
Qed.

Lemma tabs_partition_essays_static :
  list_sum (map (fun c => List.length (filteredEssays staticEssays c))
              (tl (categories staticEssays)))
  = 4.
Proof.
  apply (tabs_partition_essays staticEssays).
  simpl. intros e [<- | [<- | [<- | [<- | []]]]]; discriminate.
Defined.

Lemma ceil_div_200 (a : nat) : ceil_div a 200 = (a + 199) / 200.
Proof.
  unfold ceil_div.
  assert (Hdm := Nat.div_mod_eq a 200).
  assert (Hr := Nat.mod_upper_bound a 200 ltac:(discriminate)).
  destruct (a mod 200 =? 0) eqn:E.
  - apply Nat.eqb_eq in E.
    apply (Nat.div_unique _ _ _ 199); lia.
  - apply Nat.eqb_neq in E.
    apply (Nat.div_unique _ _ _ (a mod 200 - 1)); lia.
Qed.

(** X11. The estimate is never below the one for the tokens of the text and
    at most one minute above it: the split has between as many segments as
    there are tokens and two more. *)
Theorem estimateReadTime_within_a_minute (content : jsstring) :
  let tokens := List.length (spec_tokens content) in
  let segments := List.length (split_ws content) in
  tokens <= segments <= tokens + 2
  /\ exists minutes,
       estimateReadTime content = min_read minutes
       /\ ceil_div tokens 200 <= minutes <= ceil_div tokens 200 + 1.
Proof.
  intros tokens segments.
  assert (Hseg : tokens <= segments <= tokens + 2).
  { subst tokens segments. rewrite split_ws_tokens, !length_app.
    assert (List.length (head_segment content) <= 1)
      by (unfold head_segment; destruct content as [|c r];
          [|destruct (is_space c)]; simpl; lia).
    assert (List.length (tail_segment content) <= 1)
      by (unfold tail_segment; destruct (ends_with_space content);
          simpl; lia).
    lia. }
  split; [exact Hseg|].
  exists (ceil_div segments wordsPerMinute). split; [reflexivity|].
  unfold wordsPerMinute. rewrite !ceil_div_200. split.
  - apply Nat.Div0.div_le_mono. lia.
  - replace ((tokens + 199) / 200 + 1) with ((tokens + 199 + 1 * 200) / 200)
      by (rewrite Nat.div_add by discriminate; reflexivity).
    apply Nat.Div0.div_le_mono. lia.
Qed.

Lemma ends_with_space_rev (s : jsstring) :
  ends_with_space s = starts_with_space (rev s).
Proof.
  induction s as [|c r IH]; [reflexivity|].
  change (ends_with_space (c :: r))
    with (match r with [] => is_space c | _ :: _ => ends_with_space r end).
  simpl rev. destruct r as [|d r']; [reflexivity|].
  rewrite IH. destruct (rev (d :: r')) as [|x l] eqn:E; [|reflexivity].
  apply (f_equal (@List.length code_unit)) in E.
  rewrite length_rev in E. discriminate.
Qed.

Lemma drop_space_length (s : jsstring) :
  List.length (drop_space s) <= List.length s
  /\ (starts_with_space s = true ->
      List.length (drop_space s) < List.length s).
Proof.
  induction s as [|c r [IHle _]]; simpl; [split; [lia | discriminate]|].
  destruct (is_space c); simpl; split; try lia; discriminate.
Qed.

(** A text that [trim] leaves unchanged has no white space at its ends. *)
Lemma trimmed_ends (s : jsstring) :
  trim s = s -> starts_with_space s = false /\ ends_with_space s = false.
Proof.
  intros H. apply (f_equal (@List.length code_unit)) in H.
  unfold trim in H. rewrite length_rev in H.
  assert (H1 := drop_space_length s).
  assert (H2 := drop_space_length (rev (drop_space s))).
  rewrite length_rev in H2.
  assert (Hs : starts_with_space s = false).
  { destruct (starts_with_space s); [|reflexivity].
    destruct H1 as [_ H1]. specialize (H1 eq_refl). lia. }
  split; [exact Hs|].
  assert (Hd : drop_space s = s).
  { destruct s as [|c r]; [reflexivity|]. simpl in Hs |- *.
    rewrite Hs. reflexivity. }
  rewrite Hd in H2. rewrite ends_with_space_rev.
  destruct (starts_with_space (rev s)); [|reflexivity].
  destruct H2 as [_ H2]. specialize (H2 eq_refl). rewrite Hd in H. lia.
Qed.

(** X12. On a text that is not empty and that [trim] leaves unchanged (no
    white space before the first or after the last word) the split has one
    segment per token and the estimate is the ceiling of the number of
    tokens over 200. *)
Theorem estimateReadTime_agrees_when_trimmed (content : jsstring) :
  content <> [] ->
  trim content = content ->
  split_ws content = spec_tokens content
  /\ estimateReadTime content
     = min_read (ceil_div (List.length (spec_tokens content)) 200).
Proof.
  intros Hne Htrim. destruct (trimmed_ends content Htrim) as [Hs He].
  assert (Hsplit : split_ws content = spec_tokens content).
  { rewrite split_ws_tokens. unfold tail_segment. rewrite He, app_nil_r.
    destruct content as [|c r]; [contradiction|].
    simpl in Hs. unfold head_segment. rewrite Hs. reflexivity. }
  split; [exact Hsplit|].
  unfold estimateReadTime, wordsPerMinute. rewrite Hsplit. reflexivity.
Qed.

Lemma estimateReadTime_agrees_when_trimmed_sample :
  estimateReadTime (body_of_words 250) = min_read 2.
Proof.
  destruct (estimateReadTime_agrees_when_trimmed (body_of_words 250))
    as [_ H].
  - discriminate.
  - vm_compute. reflexivity.
  - rewrite H. vm_compute. reflexivity.
Defined.

(** X13. Every displayed essay, built-in or remote, has a category and a
    cover image that are not empty and a read time of at least one minute;
    a remote essay without content is given five minutes. *)
Theorem displayed_essays_well_formed (now : Date)
    (monthYear : Date -> jsstring) (dbEssays : option (list DbEssay)) :
  (forall e, In e (essays now monthYear dbEssays) ->
     category e <> [] /\ coverImage e <> []
     /\ exists minutes, 1 <= minutes /\ readTime e = min_read minutes)
  /\ (forall row,
        db_content row = None \/ db_content row = Some [] ->
        readTime (toEssay now monthYear row) = min_read 5).
Proof.
  assert (Hstatic : forall e, In e staticEssays ->
            category e <> [] /\ coverImage e <> []
            /\ exists minutes, 1 <= minutes /\ readTime e = min_read minutes).
  { simpl. intros e [<- | [<- | [<- | [<- | []]]]]; simpl;
      (split; [discriminate|]); (split; [discriminate|]).
    - exists 12. split; [lia | reflexivity].
    - exists 15. split; [lia | reflexivity].
    - exists 10. split; [lia | reflexivity].
    - exists 18. split; [lia | reflexivity]. }
  assert (Hrow : forall row,
            category (toEssay now monthYear row) <> []
            /\ coverImage (toEssay now monthYear row) <> []
            /\ exists minutes,
                 1 <= minutes
                 /\ readTime (toEssay now monthYear row) = min_read minutes).
  { intros row. unfold toEssay; simpl. split; [|split].
    - destruct (db_category row) as [[|c r]|]; simpl; discriminate.
    - destruct (db_coverImageUrl row) as [[|c r]|]; simpl; discriminate.
    - destruct (db_content row) as [[|c r]|];
        try (exists 5; split; [lia | reflexivity]).
      eexists. split; [|reflexivity].
      apply ceil_div_pos, split_ws_nonempty. }
  split.
  - destruct dbEssays as [[|row rows]|]; try exact Hstatic.
    intros e He. unfold essays in He. apply in_map_iff in He as (r & <- & _).
    apply Hrow.
  - intros row [H | H]; unfold toEssay; simpl; rewrite H; reflexivity.
Qed.

End MagazineMore.

(* ================================================================= *)
(** ** More on the paper administration: validation, edit, delete, sessions *)

Module AdminPapersMore.
Import JS AdminPapers PaperForm AdminPapersProps.
Local Open Scope Z_scope.

(** What [drop_space] leaves begins with a character that is not white
    space. *)
Lemma drop_space_head (s : jsstring) :
  drop_space s = []
  \/ exists c r, drop_space s = c :: r /\ is_space c = false.
Proof.
  induction s as [|c r IH]; simpl; [left; reflexivity|].
  destruct (is_space c) eqn:E; [exact IH | right; eauto].
Qed.

Lemma drop_space_nil (s : jsstring) : drop_space s = [] <-> blank s = true.
Proof.
  unfold blank. induction s as [|c r IH]; simpl; [tauto|].
  destruct (is_space c); simpl; [exact IH | split; discriminate].
Qed.

Lemma blank_rev (s : jsstring) : blank (rev s) = blank s.
Proof.
  unfold blank. destruct (forallb is_space s) eqn:E.
  - rewrite forallb_forall in *. intros x Hx. apply E, in_rev, Hx.
  - destruct (forallb is_space (rev s)) eqn:E'; [|reflexivity].
    rewrite <- E. symmetry. rewrite forallb_forall in *.
    intros x Hx. apply E'. rewrite <- in_rev. exact Hx.
Qed.

(** Nothing is left after trimming exactly when the string has no character
    other than white space. *)
Lemma trim_nil_iff (s : jsstring) : trim s = [] <-> blank s = true.
Proof.
  unfold trim. split.
  - intros H. apply drop_space_nil.
    destruct (drop_space_head s) as [Hnil | (c & r & Hs & Hc)]; [exact Hnil|].
    exfalso.
    assert (Hrev : drop_space (rev (drop_space s)) = []).
    { apply (f_equal (@rev code_unit)) in H.
      rewrite rev_involutive in H. exact H. }
    apply drop_space_nil in Hrev. rewrite blank_rev, Hs in Hrev.
    unfold blank in Hrev. simpl in Hrev. rewrite Hc in Hrev. discriminate.
  - intros H. apply drop_space_nil in H. rewrite H. reflexivity.
Qed.

Lemma trim_check (s : jsstring) :
  negb (truthy_str (trim s)) = blank s.
Proof.
  destruct (blank s) eqn:E.
  - apply trim_nil_iff in E. rewrite E. reflexivity.
  - destruct (trim s) eqn:Et; [|reflexivity].
    apply trim_nil_iff in Et. congruence.
Qed.

(** X14. The submit handler calls the remote store exactly when the title
    and the authors each contain a character that is not white space; a
    title or an author list made of spaces, tabs or line breaks only is
    rejected like an empty one. *)
Theorem handleSubmit_calls_iff_not_blank (now : Date) (s : State) :
  (exists e, In e (snd (handleSubmit now s)) /\ is_submission e)
  <-> blank (title (formData s)) = false
      /\ blank (authors (formData s)) = false.
Proof.
  unfold handleSubmit. rewrite !trim_check.
  destruct (blank (title (formData s))).
  { split; [|intros [H _]; discriminate].
    intros (e & [<- | []] & [[i H] | [i H]]); discriminate. }
  destruct (blank (authors (formData s))).
  { split; [|intros [_ H]; discriminate].
    intros (e & [<- | []] & [[i H] | [i H]]); discriminate. }
  split; [auto|]. intros _.
  destruct (if_truthy (editingId s)); eexists;
    (split; [left; reflexivity|]); [right | left]; eauto.
Qed.

(** X23. Which message the validation shows: the one about the title exactly
    when the title is blank, whatever the authors are, and the one about the
    authors exactly when the title is not blank and the authors are. *)
Theorem handleSubmit_message (now : Date) (s : State) :
  (handleSubmit now s = (s, [toast_error msg_need_title])
   <-> blank (title (formData s)) = true)
  /\ (handleSubmit now s = (s, [toast_error msg_need_authors])
      <-> blank (title (formData s)) = false
          /\ blank (authors (formData s)) = true).
Proof.
  unfold handleSubmit. rewrite !trim_check.
  destruct (blank (title (formData s))).
  { split; split; try reflexivity; try discriminate.
    intros [H _]; discriminate. }
  destruct (blank (authors (formData s))).
  { split; split; try discriminate; auto. }
  destruct (if_truthy (editingId s)); split; split;
    try discriminate; intros [_ H]; discriminate.
Qed.

Section Page.
Variable getFullYear : Date -> Z.
Variable loadYear : Z.





(** X17. A click on the trash button of a paper followed by a click on the
    confirm button calls the remote delete once, with the identifier of that
    paper, and leaves the confirmation open with the identifier pending; for
    the identifier 0 it calls nothing. *)
Theorem trash_then_confirm (paper : Paper) (s : State) :
  run getFullYear loadYear s [] [click_trash paper; click_confirm_delete]
  = ({| isDialogOpen := isDialogOpen s;
        isDeleteDialogOpen := true;
        editingId := editingId s;
        deletingId := Some (paper_id paper);
        formData := formData s |},
     if paper_id paper =? 0 then [] else [delete_mutate (paper_id paper)]).
Proof.
  simpl. unfold handleDelete. simpl.
  destruct (paper_id paper =? 0); reflexivity.
Qed.

(** X18. When a delete succeeds the list is invalidated, a notification is
    shown, the confirmation is closed and the pending identifier is cleared,
    the edit dialog and its draft being untouched; a further click on the
    confirm button then calls nothing.  When it fails the only effect is the
    error notification with the message of the failure, and a further click
    on the confirm button repeats the call that the state asks for. *)
Theorem delete_outcome (s : State) (message : jsstring) :
  handle getFullYear loadYear (delete_settled succeeded) s
  = ({| isDialogOpen := isDialogOpen s;
        isDeleteDialogOpen := false;
        editingId := editingId s;
        deletingId := None;
        formData := formData s |},
     [invalidate_listAll; toast_success msg_deleted])
  /\ snd (run getFullYear loadYear s []
            [delete_settled succeeded; click_confirm_delete])
     = [invalidate_listAll; toast_success msg_deleted]
  /\ handle getFullYear loadYear (delete_settled (failed message)) s
     = (s, [toast_error (msg_delete_failed ++ message)])
  /\ snd (run getFullYear loadYear s []
            [delete_settled (failed message); click_confirm_delete])
     = toast_error (msg_delete_failed ++ message) :: snd (handleDelete s).
Proof.
  split; [reflexivity|]. split; [reflexivity|]. split; [reflexivity|].
  simpl. destruct (handleDelete s) as [s' out] eqn:E.
  unfold handleDelete in E. destruct (if_truthy (deletingId s));
    injection E as <- <-; reflexivity.
Qed.

(** Where a create or an update call of a handler comes from. *)
Lemma submission_origin (e : Event) (s : State) (eff : Effect) :
  In eff (snd (handle getFullYear loadYear e s)) ->
  match eff with
  | create_mutate input =>
      exists now,
        e = click_save now
        /\ if_truthy (editingId s) = None
        /\ c_form input = formData s
        /\ blank (title (formData s)) = false
        /\ blank (authors (formData s)) = false
  | update_mutate input =>
      (exists now id,
         e = click_save now
         /\ if_truthy (editingId s) = Some id
         /\ input = update_of_form id (formData s) (u_publishedAt input)
         /\ blank (title (formData s)) = false
         /\ blank (authors (formData s)) = false)
      \/ (exists paper now,
            e = click_toggle paper now
            /\ input = update_published (paper_id paper)
                         (negb (truthy_bool (paper_published paper)))
                         (u_publishedAt input))
  | _ => True
  end.
Proof.
  destruct e as [ | paper now | paper now | paper | | now | f
                | b | b | | o | o | o ]; simpl;
    try (intros H; destruct H; fail).
  - intros [<- | []]. right. exists paper, now. split; reflexivity.
  - unfold handleSubmit. rewrite !trim_check.
    destruct (blank (title (formData s))) eqn:Et;
      [intros [<- | []]; exact I|].
    destruct (blank (authors (formData s))) eqn:Ea;
      [intros [<- | []]; exact I|].
    destruct (if_truthy (editingId s)) as [id|] eqn:Eid; intros [<- | []].
    + left. exists now, id. repeat split; reflexivity.
    + exists now. repeat split; reflexivity.
  - unfold handleDelete. destruct (if_truthy (deletingId s));
      [intros [<- | []]; exact I | intros []].
  - destruct o; simpl; intros H; repeat destruct H as [<- | H];
      try exact I; destruct H.
  - destruct o; simpl; intros H; repeat destruct H as [<- | H];
      try exact I; destruct H.
  - destruct o; simpl; intros H; repeat destruct H as [<- | H];
      try exact I; destruct H.
Qed.


(** The paper being edited was opened by a click on its edit button. *)
Lemma editingId_origin (es : list Event) (id : Z) :
  editingId (fst (run getFullYear loadYear (initial loadYear) [] es))
  = Some id ->
  exists paper now, In (click_edit paper now) es /\ paper_id paper = id.
Proof.
  induction es as [|e es IH] using rev_ind; [discriminate|].
  rewrite session_snoc. simpl fst.
  assert (Hkeep : forall s', editingId s'
                  = editingId (fst (run getFullYear loadYear
                                      (initial loadYear) [] es)) ->
                  editingId s' = Some id ->
                  exists paper now,
                    In (click_edit paper now) (es ++ [e])
                    /\ paper_id paper = id).
  { intros s' Heq H. rewrite Heq in H.
    destruct (IH H) as (paper & now & Hin & Hid).
    exists paper, now. split; [apply in_or_app; left; exact Hin | exact Hid]. }
  generalize dependent (fst (run getFullYear loadYear (initial loadYear)
                               [] es)).
  intros s IH Hkeep.
  destruct e as [ | paper now | paper now | paper | | now | f
                | b | b | | o | o | o ]; simpl;
    try (apply Hkeep; reflexivity); try discriminate.
  - intros H. exists paper, now.
    split; [apply in_or_app; right; left; reflexivity | congruence].
  - apply Hkeep. unfold handleSubmit.
    destruct (negb (truthy_str (trim (title (formData s))))); [reflexivity|].
    destruct (negb (truthy_str (trim (authors (formData s))))); [reflexivity|].
    destruct (if_truthy (editingId s)); reflexivity.
  - apply Hkeep. unfold handleDelete.
    destruct (if_truthy (deletingId s)); reflexivity.
  - destruct o; simpl; [discriminate | apply Hkeep; reflexivity].
  - destruct o; simpl; [discriminate | apply Hkeep; reflexivity].
  - destruct o; simpl; apply Hkeep; reflexivity.
Qed.

(** X20. In every session from the initial state, an update is only ever
    sent for a paper that the user clicked: its identifier is the one of a
    paper whose publish toggle was clicked, or, for an update that carries
    the form, of a paper whose edit button was clicked, and then it is not
    0. *)
Theorem sessions_update_clicked_papers (es : list Event) (input : UpdateInput) :
  In (update_mutate input)
     (snd (run getFullYear loadYear (initial loadYear) [] es)) ->
  exists paper now,
    paper_id paper = u_id input
    /\ ((In (click_toggle paper now) es /\ u_title input = None)
        \/ (In (click_edit paper now) es /\ u_title input <> None
            /\ u_id input <> 0)).
Proof.
  induction es as [|e es IH] using rev_ind; [intros []|].
  rewrite session_snoc. simpl snd. intros Hin.
  apply in_app_or in Hin as [Hold | Hnew].
  - destruct (IH Hold) as (paper & now & Hid & [[H Ht] | [H Ht]]);
      exists paper, now; (split; [exact Hid|]); [left | right];
      (split; [apply in_or_app; left; exact H | exact Ht]).
  - apply submission_origin in Hnew
      as [(now & id & -> & Hedit & -> & _) | (paper & now & -> & ->)].
    + apply if_truthy_Some in Hedit as [Hedit Hid].
      destruct (editingId_origin es id Hedit) as (paper & opened & Hin & Hp).
      exists paper, opened. split; [exact Hp|]. right.
      split; [apply in_or_app; left; exact Hin|].
      split; [discriminate | exact Hid].
    + exists paper, now. split; [reflexivity|]. left.
      split; [apply in_or_app; right; left; reflexivity | reflexivity].
Qed.


End Page.



Lemma sessions_update_clicked_papers_sample :
  exists paper now,
    paper_id paper = 7
    /\ In (click_toggle paper now) [click_toggle sample_paper 1800000000000].
Proof.
  destruct (sessions_update_clicked_papers (fun _ => 2026) 2026
              [click_toggle sample_paper 1800000000000]
              (update_published 7 false None))
    as (paper & now & Hid & [[Hin _] | [Hin _]]).
  - simpl. left. reflexivity.
  - exists paper, now. split; [exact Hid | exact Hin].
  - exfalso. destruct Hin as [H | []]. discriminate.
Defined.

Section Controls.
Variable parseInt : jsstring -> option Z.
Variable getFullYear : Date -> Z.
Variable loadYear : Z.

(** No control of the form writes the storage key of the PDF. *)
Lemma onChange_pdfKey (c : Control) (prev : PaperFormData) :
  pdfKey (onChange parseInt getFullYear c prev) = pdfKey prev.
Proof. destruct c; reflexivity. Qed.

Lemma key_of_opened_paper_more (us : list UserEvent) (u : UserEvent)
    (s s' : State) :
  editingId s' = editingId s ->
  pdfKey (formData s') = pdfKey (formData s) ->
  key_of_opened_paper us s -> key_of_opened_paper (us ++ [u]) s'.
Proof.
  intros He Hk [[H1 H2] | (paper & now & Hin & H1 & H2)].
  - left. split; congruence.
  - right. exists paper, now. split; [apply in_or_app; left; exact Hin|].
    split; congruence.
Qed.

Lemma user_sessions_keep_key (us : list UserEvent) :
  Forall Is_user_event us -> key_of_opened_paper us (after parseInt getFullYear loadYear us).
Proof.
  induction us as [|u us IH] using rev_ind; intros Hall.
  - left. split; reflexivity.
  - apply Forall_app in Hall as [Hus Hu]. specialize (IH Hus).
    inversion Hu as [|? ? Hlast _]; subst.
    unfold after in *. rewrite map_app. simpl map. rewrite session_snoc.
    simpl fst.
    generalize dependent (fst (run getFullYear loadYear (initial loadYear) []
                                 (map (page_event parseInt getFullYear) us))).
    intros s IH.
    assert (Hclosed : key_of_opened_paper (us ++ [u])
                        (closeDialog_state loadYear s))
      by (left; split; reflexivity).
    destruct u as [c | e]; simpl.
    + apply (key_of_opened_paper_more us _ s); [reflexivity | | exact IH].
      simpl. apply onChange_pdfKey.
    + destruct e as [ | paper now | paper now | paper | | now | f
                    | b | b | | o | o | o ]; simpl in *;
        try (apply (key_of_opened_paper_more us _ s);
             [reflexivity | reflexivity | exact IH]);
        try exact Hclosed.
      * right. exists paper, now.
        split; [apply in_or_app; right; left; reflexivity|].
        split; reflexivity.
      * apply (key_of_opened_paper_more us _ s); [| | exact IH];
          unfold handleSubmit;
          destruct (negb (truthy_str (trim (title (formData s)))));
          try reflexivity;
          destruct (negb (truthy_str (trim (authors (formData s)))));
          try reflexivity;
          destruct (if_truthy (editingId s)); reflexivity.
      * destruct Hlast.
      * apply (key_of_opened_paper_more us _ s); [| | exact IH];
          unfold handleDelete; destruct (if_truthy (deletingId s));
          reflexivity.
      * destruct o; simpl; [exact Hclosed|].
        apply (key_of_opened_paper_more us _ s);
          [reflexivity | reflexivity | exact IH].
      * destruct o; simpl; [exact Hclosed|].
        apply (key_of_opened_paper_more us _ s);
          [reflexivity | reflexivity | exact IH].
      * destruct o; simpl;
          apply (key_of_opened_paper_more us _ s);
          try reflexivity; exact IH.
Qed.

(** X21. The form has no control for the storage key of the PDF.  In every
    session in which the draft is changed through the controls of the form,
    an update sent from the form carries the key of a paper with the updated
    identifier that the user opened for editing (the empty string when that
    paper has no key), and a created paper carries the empty key, or the key
    of an opened paper whose identifier is 0. *)
Theorem form_never_changes_pdfKey (us : list UserEvent) :
  Forall Is_user_event us ->
  let log := snd (run getFullYear loadYear (initial loadYear) []
                    (map (page_event parseInt getFullYear) us)) in
  (forall input k,
     In (update_mutate input) log -> u_pdfKey input = Some k ->
     exists paper now,
       In (other (click_edit paper now)) us
       /\ paper_id paper = u_id input
       /\ k = or_str (paper_pdfKey paper) [])
  /\ (forall input,
        In (create_mutate input) log ->
        pdfKey (c_form input) = []
        \/ exists paper now,
             In (other (click_edit paper now)) us
             /\ paper_id paper = 0
             /\ pdfKey (c_form input) = or_str (paper_pdfKey paper) []).
Proof.
  induction us as [|u us IH] using rev_ind; intros Hall;
    [split; [intros ? ? [] | intros ? []]|].
  apply Forall_app in Hall as [Hus Hu]. specialize (IH Hus).
  assert (Hinv := user_sessions_keep_key us Hus). unfold after in Hinv.
  cbv zeta in *. rewrite map_app. simpl map. rewrite session_snoc.
  simpl snd. destruct IH as [IHu IHc].
  assert (Hweak : forall paper now,
            In (other (click_edit paper now)) us ->
            In (other (click_edit paper now)) (us ++ [u]))
    by (intros; apply in_or_app; left; assumption).
  split.
  - intros input k Hin Hk. apply in_app_or in Hin as [Hold | Hnew].
    { destruct (IHu input k Hold Hk) as (paper & now & H & Hrest).
      exists paper, now. split; [apply Hweak; exact H | exact Hrest]. }
    apply submission_origin in Hnew
      as [(now & id & _ & Hedit & Hinp & _) | (paper & now & _ & Hinp)].
    + apply if_truthy_Some in Hedit as [Hedit Hid].
      rewrite Hinp in Hk |- *. simpl in Hk |- *. injection Hk as <-.
      destruct Hinv as [[Hnone _] | (paper & opened & Hin & He & Hkey)];
        [congruence|].
      exists paper, opened. split; [apply Hweak; exact Hin|].
      split; [congruence | exact Hkey].
    + rewrite Hinp in Hk. discriminate.
  - intros input Hin. apply in_app_or in Hin as [Hold | Hnew].
    { destruct (IHc input Hold) as [H | (paper & now & H & Hrest)];
        [left; exact H|].
      right. exists paper, now. split; [apply Hweak; exact H | exact Hrest]. }
    apply submission_origin in Hnew as (now & _ & Hnone & Hform & _).
    rewrite Hform.
    destruct Hinv as [[_ Hkey] | (paper & opened & Hin & He & Hkey)];
      [left; exact Hkey|].
    right. exists paper, opened. split; [apply Hweak; exact Hin|].
    split; [|exact Hkey].
    rewrite He in Hnone. simpl in Hnone.
    destruct (paper_id paper =? 0) eqn:E; [|discriminate].
    apply Z.eqb_eq; exact E.
Qed.

(** X22. The create flow.  From any state, a click on the add button, a
    title and authors typed into the form and a click on save create one
    paper: the default draft with that title and those authors, not
    published and without a publication time; nothing of an earlier draft or
    of a paper edited before is sent.  Without typing, the save is refused
    with the message about the title. *)
Theorem create_flow (t a : jsstring) (now : Date) (s : State) :
  blank t = false -> blank a = false ->
  snd (run getFullYear loadYear s []
         (map (page_event parseInt getFullYear)
            [other click_add; control (title_input t);
             control (authors_input a); other (click_save now)]))
  = [create_mutate
       {| c_form := with_authors (with_title (defaultFormData loadYear) t) a;
          c_publishedAt := None |}]
  /\ snd (run getFullYear loadYear s [] [click_add; click_save now])
     = [toast_error msg_need_title].
Proof.
  intros Ht Ha. split; [|reflexivity].
  simpl. unfold handleSubmit. rewrite !trim_check. simpl.
  rewrite Ht, Ha. reflexivity.
Qed.

End Controls.

Lemma form_never_changes_pdfKey_sample :
  exists paper now,
    In (other (click_edit paper now))
       [other (click_edit sample_paper 1790000000000);
        control (title_input (lit "On Looking"));
        other (click_save 1800000000000)]
    /\ paper_id paper = 7
    /\ [] = or_str (paper_pdfKey paper) [].
Proof.
  assert (Hall : Forall Is_user_event
                   [other (click_edit sample_paper 1790000000000);
                    control (title_input (lit "On Looking"));
                    other (click_save 1800000000000)])
    by (repeat constructor).
  destruct (form_never_changes_pdfKey (fun _ => None) (fun _ => 2026) 2026
              _ Hall) as [Hupdate _].
  eapply (Hupdate (update_of_form 7
                     (with_title
                        (formData
                           (fst (openEditDialog (fun _ => 2026) sample_paper
                                   1790000000000 (initial 2026))))
                        (lit "On Looking"))
                     (Some 1800000000000))).
  - simpl. left. reflexivity.
  - reflexivity.
Defined.

Lemma create_flow_sample :
  snd (run (fun _ => 2026) 2026 (initial 2026) []
         (map (page_event (fun _ => None) (fun _ => 2026))
            [other click_add; control (title_input (lit "On Looking"));
             control (authors_input (lit "Wang, Z."));
             other (click_save 1800000000000)]))
  = [create_mutate
       {| c_form := with_authors
                      (with_title (defaultFormData 2026) (lit "On Looking"))
                      (lit "Wang, Z.");
          c_publishedAt := None |}].
Proof.
  apply (create_flow (fun _ => None) (fun _ => 2026) 2026
           (lit "On Looking") (lit "Wang, Z.") 1800000000000 (initial 2026));
    reflexivity.
Defined.

End AdminPapersMore.
